(** * RoadRunner backend controllers: chat rooms, order requests, listings

    A shallow embedding of the request handlers of
    [controllers/chatting.controller.js], [controllers/shopper.controller.js]
    and the runner controller, together with the properties the
    specification states about them.

    The handlers are [async] functions that talk to a relational store
    through service modules.  A handler is modelled as a function from the
    store to an outcome and the store it leaves behind; a JavaScript [throw]
    (forwarded by the handler to [next(error)]) is the [Throw] outcome.

    Identifiers are integers ([Z]): the JSON numbers of the request body
    after [+userId], within the range in which JavaScript prints a number
    as a plain decimal numeral. *)

From Stdlib Require Import ZArith String Ascii List Lia.
From Stdlib Require Import DecimalString DecimalZ DecimalPos.
From stdpp Require Import base list sorting gmap strings.

Open Scope Z_scope.

(** ** JavaScript primitives used by the handlers *)

Module JS.

(** [String(n)] for an integer [n]: the decimal numeral, with a leading
    minus sign for a negative number. *)
Definition toString (n : Z) : string :=
  NilZero.string_of_int (Z.to_int n).

(** The order [Array.prototype.sort] uses when it is called without a
    comparison function: both elements are converted to strings and the
    strings are compared by code units. *)
Definition sort_le (x y : Z) : Prop :=
  String.leb (toString x) (toString y) = true.

Global Instance sort_le_dec x y : Decision (sort_le x y).
Proof. unfold sort_le. apply _. Defined.

(** [arr.sort()].  The sort of the language is stable; [sort_unique] below
    shows that the result is determined by the order alone. *)
Definition sort (arr : list Z) : list Z := merge_sort sort_le arr.

(** [arr.join(sep)] on an array of integers. *)
Definition join (sep : string) (arr : list Z) : string :=
  String.concat sep (map toString arr).

(** [arr.indexOf(x) === -1] *)
Definition absent (x : Z) (arr : list Z) : bool := bool_decide (x ∉ arr).

(** What follows a numeral in a joined key: the end of the key, or the
    separator. *)
Definition separator_or_end (t : string) : Prop :=
  t = ""%string ∨ ∃ t', t = String "-" t'.

(** A value that reaches a handler in [req.query]: a string taken from
    the URL, or a number the handler has put there itself. *)
Inductive value :=
| Str (s : string)
| Num (n : Z).

Global Instance value_eq_dec : EqDecision value.
Proof. solve_decision. Defined.

End JS.

(** ** The store *)

(** Errors: the two messages the chat handlers throw, and the named failures
    of the service layer. *)
Inductive Error :=
| CHATTING_INVALID_MEMBER
| CHATTING_INVALID_ROOMKEY
| NotFound
| InvalidTransition
| Conflict.

Global Instance Error_eq_dec : EqDecision Error.
Proof. solve_decision. Defined.

Inductive RequestStatus :=
| REQUESTING
| MATCHED
| MATCH_FAIL
| DELIVERED_REQUEST
| DELIVERED
| REVIEW_REQUEST
| REVIEWED.

Global Instance RequestStatus_eq_dec : EqDecision RequestStatus.
Proof. solve_decision. Defined.

(** A row of the users table, keyed by its user identifier in [users]. *)
Record User := mkUser {
  u_email : string;
  u_nickname : string;
  u_active : bool }.

Record ChattingRoom := mkRoom {
  r_roomId : Z;
  r_roomKey : string;
  r_members : list Z }.

Record ChattingMessage := mkMessage {
  m_messageId : Z;
  m_roomId : Z;
  m_userId : Z;
  m_message : string;
  m_type : string;
  m_createdAt : Z }.

Record Order := mkOrder {
  o_orderId : Z;
  o_ownerId : Z;
  o_status : string;
  o_title : string }.

Record OrderRequest := mkRequest {
  q_requestId : Z;
  q_orderId : Z;
  q_counterpartId : Z;
  q_requestStatus : RequestStatus }.

Global Instance User_eq_dec : EqDecision User.
Proof. solve_decision. Defined.
Global Instance ChattingRoom_eq_dec : EqDecision ChattingRoom.
Proof. solve_decision. Defined.
Global Instance ChattingMessage_eq_dec : EqDecision ChattingMessage.
Proof. solve_decision. Defined.
Global Instance Order_eq_dec : EqDecision Order.
Proof. solve_decision. Defined.
Global Instance OrderRequest_eq_dec : EqDecision OrderRequest.
Proof. solve_decision. Defined.

(** The tables.  Users are keyed by their primary key; the other tables are
    kept as rows in insertion order.  Shoppers and runners have their own
    order and request tables. *)
Record Db := mkDb {
  users : gmap Z User;
  rooms : list ChattingRoom;
  messages : list ChattingMessage;
  shopperOrders : list Order;
  shopperOrderRequests : list OrderRequest;
  runnerOrders : list Order;
  runnerOrderRequests : list OrderRequest }.

Definition set_rooms (rs : list ChattingRoom) (db : Db) : Db :=
  mkDb (users db) rs (messages db) (shopperOrders db)
       (shopperOrderRequests db) (runnerOrders db) (runnerOrderRequests db).
Definition set_messages (ms : list ChattingMessage) (db : Db) : Db :=
  mkDb (users db) (rooms db) ms (shopperOrders db)
       (shopperOrderRequests db) (runnerOrders db) (runnerOrderRequests db).
Definition set_shopperOrderRequests (qs : list OrderRequest) (db : Db) : Db :=
  mkDb (users db) (rooms db) (messages db) (shopperOrders db)
       qs (runnerOrders db) (runnerOrderRequests db).
Definition set_runnerOrderRequests (qs : list OrderRequest) (db : Db) : Db :=
  mkDb (users db) (rooms db) (messages db) (shopperOrders db)
       (shopperOrderRequests db) (runnerOrders db) qs.

(** ** Handlers as store transformers that may throw *)

Inductive outcome (A : Type) :=
| Ok (a : A)
| Throw (e : Error).
Arguments Ok {A} a.
Arguments Throw {A} e.

Definition Async (A : Type) : Type := Db → outcome A * Db.

Definition ret {A} (a : A) : Async A := λ db, (Ok a, db).
Definition throw {A} (e : Error) : Async A := λ db, (Throw e, db).
Definition bind {A B} (m : Async A) (k : A → Async B) : Async B :=
  λ db, match m db with
        | (Ok a, db') => k a db'
        | (Throw e, db') => (Throw e, db')
        end.
Definition query {A} (f : Db → A) : Async A := λ db, (Ok (f db), db).

Notation "'await' x ← m ;; k" := (bind m (λ x, k))
  (at level 100, x pattern, m at next level, right associativity,
   format "'[v' 'await'  x  ←  m  ;;  '/' k ']'").

Global Instance outcome_eq_dec {A} `{EqDecision A} : EqDecision (outcome A).
Proof. solve_decision. Defined.

(** The identifier the store gives to a new row: one more than the largest
    identifier in use. *)
Definition next_id {A} (id : A → Z) (rows : list A) : Z :=
  1 + foldr Z.max 0 (map id rows).

(** ** Service layer *)

Module UserService.

(** Modelled from the spec: [services/user.service.js] is not part of the
    sources.  "Verify that every identifier in the set corresponds to an
    existing, active user -- if the count of matched users differs from
    the set size, fails": the matched users are the active rows whose
    identifier occurs among the identifiers passed in, and [isSame]
    compares their number with the number of identifiers passed in. *)
Definition matched (userIds : list Z) (db : Db) : gmap Z User :=
  filter (λ row, row.1 ∈ userIds ∧ u_active row.2 = true) (users db).

(** What [getUserCountByIds] answers; the handler reads [isSame]. *)
Record UserCount := mkUserCount { count : nat; isSame : bool }.

(** Modelled from the spec: the count of matched users, and whether it is
    the number of identifiers passed in. *)
Definition getUserCountByIds (userIds : list Z) : Async UserCount :=
  query (λ db,
    let n := size (matched userIds db) in
    mkUserCount n (bool_decide (n = length userIds))).

(** Modelled from the spec: the rows of the matched users, with their
    identifiers. *)
Definition getUserByIds (userIds : list Z) : Async (list (Z * User)) :=
  query (λ db, map_to_list (matched userIds db)).

End UserService.

Module ChattingService.

(** Modelled from the spec: [services/chatting.service.js] is not part of
    the sources.  "Lookup by derived key": the stored room whose room key
    is the key asked for, if there is one.  The spec gives the caller's
    identifier no part in the lookup. *)
Definition getRoomByRoomKey (roomKey : string) (userId : Z)
  : Async (option ChattingRoom) :=
  query (λ db, List.find (λ r, bool_decide (r_roomKey r = roomKey)) (rooms db)).

(** Modelled from the spec: a room is "identified by a roomKey -- the
    sorted, dash-joined concatenation of all participant user
    identifiers".  The handler hands over the identifiers in the order it
    has put them in; the new row gets the next free identifier, the
    dash-joined identifiers as its key and the identifiers as its
    members. *)
Definition createRoom (userIds : list Z) : Async ChattingRoom :=
  λ db,
    let room := mkRoom (next_id r_roomId (rooms db))
                       (JS.join "-" userIds) userIds in
    (Ok room, set_rooms (rooms db ++ [room]) db).

(** Modelled from the spec: messages come "in descending creation-time
    order (most recent first)"; rows with the same creation time are
    ordered by "monotonically increasing identifier assignment order". *)
Definition newer (a b : ChattingMessage) : Prop :=
  m_createdAt b < m_createdAt a
  ∨ (m_createdAt a = m_createdAt b ∧ m_messageId a ≤ m_messageId b).

Global Instance newer_dec a b : Decision (newer a b).
Proof. unfold newer. apply _. Defined.

(** Modelled from the spec: the messages of one room in that order. *)
Definition feed (roomId : Z) (db : Db) : list ChattingMessage :=
  merge_sort newer
    (List.filter (λ m, bool_decide (m_roomId m = roomId)) (messages db)).

(** Modelled from the spec: "a finite, restartable slice (offset/limit)"
    of the feed of the room. *)
Definition loadMessage (roomId : Z) (limit offset : nat)
  : Async (list ChattingMessage) :=
  query (λ db, take limit (drop offset (feed roomId db))).

(** Modelled from the spec: messages are append-only and carry "a creation
    timestamp used as the sole ordering key".  [now] is the instant at
    which the row is written; an absent type discriminator defaults to
    text. *)
Definition createMessage (now : Z) (userId : Z) (message : string)
    (roomId : Z) (type : option string) : Async ChattingMessage :=
  λ db,
    let row := mkMessage (next_id m_messageId (messages db)) roomId userId
                         message (default "text"%string type) now in
    (Ok row, set_messages (messages db ++ [row]) db).

End ChattingService.

Module OrderService.

(** What a listing handler passes on: [req.query] after validation.  The
    owner filter is [shopperId] for shopper orders and [runnerId] for runner
    orders. *)
Record Query := mkQuery {
  ownerId : option JS.value;
  status : option string;
  offset : option nat;
  limit : option nat }.

(** The query with its owner filter replaced. *)
Definition with_owner (v : JS.value) (q : Query) : Query :=
  mkQuery (Some v) (status q) (offset q) (limit q).

Record OrderPage := mkPage {
  totalCount : nat;
  page_orders : list Order }.

Global Instance OrderPage_eq_dec : EqDecision OrderPage.
Proof. solve_decision. Defined.

(** Modelled from the spec: [services/shopper.service.js] and
    [services/runner.service.js] are not part of the sources.  Storage
    compares the owner filter with the owner column as numbers: a number is
    itself, a string from the URL is the decimal numeral it spells, and text
    that spells no numeral matches no owner. *)
Definition toNumber (v : JS.value) : option Z :=
  match v with
  | JS.Num n => Some n
  | JS.Str s => option_map Z.of_int (NilZero.int_of_string s)
  end.

(** Modelled from the spec: the owner filter selects the orders whose owner
    is the identifier it denotes. *)
Definition owned_by (v : JS.value) (o : Order) : bool :=
  match toNumber v with
  | Some n => bool_decide (o_ownerId o = n)
  | None => false
  end.

(** Modelled from the spec: an absent filter selects every order; "no owner
    filter returns all orders matching only the status filter". *)
Definition selected (q : Query) (o : Order) : bool :=
  from_option (λ v, owned_by v o) true (ownerId q)
  && from_option (λ s, bool_decide (o_status o = s)) true (status q).

(** Modelled from the spec: "listOrders(ownerFilter?, statusFilter?,
    offset=0, limit=20) -> (items, totalCount)", where "totalCount reflects
    the filtered set size, independent of pagination window". *)
Definition getOrders (table : list Order) (q : Query) : OrderPage :=
  let hits := List.filter (selected q) table in
  mkPage (length hits)
         (take (default 20%nat (limit q)) (drop (default 0%nat (offset q)) hits)).

(** Modelled from the spec: the transition table of the request status. *)
Definition allowed (from to : RequestStatus) : bool :=
  match from, to with
  | REQUESTING, MATCHED
  | REQUESTING, MATCH_FAIL
  | MATCHED, DELIVERED_REQUEST
  | MATCHED, MATCH_FAIL
  | DELIVERED_REQUEST, DELIVERED
  | DELIVERED, REVIEW_REQUEST
  | REVIEW_REQUEST, REVIEWED => true
  | _, _ => false
  end.

(** The request with its status replaced. *)
Definition set_status (to : RequestStatus) (r : OrderRequest) : OrderRequest :=
  mkRequest (q_requestId r) (q_orderId r) (q_counterpartId r) to.

(** Modelled from the spec: "updateRequestStatus(requestId, newStatus) --
    fails with NotFound if requestId is unknown, with InvalidTransition if
    newStatus is not reachable from the current status per the transition
    table"; "a failed transition or creation leaves all entities
    unmodified". *)
Definition updateOrderRequest (requestId : Z) (newStatus : RequestStatus)
    (table : list OrderRequest) : outcome unit * list OrderRequest :=
  match List.find (λ r, bool_decide (q_requestId r = requestId)) table with
  | None => (Throw NotFound, table)
  | Some r =>
      if allowed (q_requestStatus r) newStatus
      then (Ok tt,
            map (λ r', if bool_decide (q_requestId r' = requestId)
                       then set_status newStatus r' else r') table)
      else (Throw InvalidTransition, table)
  end.

(** Modelled from the spec: "createRequest(orderId, counterpartId) -- fails
    with NotFound if the order does not exist"; a new request starts in
    REQUESTING.  On duplicates the spec records that the invariant is "not
    enforced by current design" and that "the source contains an explicit
    TODO acknowledging that duplicate request creation is not prevented":
    no existing request is looked at. *)
Definition createOrderRequest (orders : list Order) (orderId counterpartId : Z)
    (table : list OrderRequest) : outcome OrderRequest * list OrderRequest :=
  if existsb (λ o, bool_decide (o_orderId o = orderId)) orders
  then let row := mkRequest (next_id q_requestId table) orderId counterpartId
                            REQUESTING in
       (Ok row, table ++ [row])
  else (Throw NotFound, table).

End OrderService.

Module ShopperService.

(** Modelled from the spec: [services/shopper.service.js] is not part of
    the sources; its operations are those of [OrderService] on the shopper
    tables. *)
Definition getOrders (q : OrderService.Query) : Async OrderService.OrderPage :=
  query (λ db, OrderService.getOrders (shopperOrders db) q).

(** Modelled from the spec: [createRequest] on the shopper tables. *)
Definition createOrderRequest (orderId runnerId : Z) : Async OrderRequest :=
  λ db,
    let '(res, table) :=
      OrderService.createOrderRequest (shopperOrders db) orderId runnerId
                                      (shopperOrderRequests db) in
    (res, set_shopperOrderRequests table db).

(** Modelled from the spec: [updateRequestStatus] on the shopper tables. *)
Definition updateOrderRequest (requestId : Z) (requestStatus : RequestStatus)
  : Async unit :=
  λ db,
    let '(res, table) :=
      OrderService.updateOrderRequest requestId requestStatus
                                      (shopperOrderRequests db) in
    (res, set_shopperOrderRequests table db).

End ShopperService.

Module RunnerService.

(** Modelled from the spec: [services/runner.service.js] is not part of the
    sources; its operations are those of [OrderService] on the runner
    tables. *)
Definition getOrders (q : OrderService.Query) : Async OrderService.OrderPage :=
  query (λ db, OrderService.getOrders (runnerOrders db) q).

(** Modelled from the spec: [createRequest] on the runner tables. *)
Definition createOrderRequest (orderId shopperId : Z) : Async OrderRequest :=
  λ db,
    let '(res, table) :=
      OrderService.createOrderRequest (runnerOrders db) orderId shopperId
                                      (runnerOrderRequests db) in
    (res, set_runnerOrderRequests table db).

(** Modelled from the spec: [updateRequestStatus] on the runner tables. *)
Definition updateOrderRequest (requestId : Z) (requestStatus : RequestStatus)
  : Async unit :=
  λ db,
    let '(res, table) :=
      OrderService.updateOrderRequest requestId requestStatus
                                      (runnerOrderRequests db) in
    (res, set_runnerOrderRequests table db).

End RunnerService.

(** ** [controllers/chatting.controller.js] *)

Module Chatting.

(** [joinRoom], the identifiers the handler works with:
    [req.body.userIds.map(userId => +userId).sort()], to which the caller is
    pushed when [indexOf] does not find it. *)
Definition participants (userId : Z) (body_userIds : list Z) : list Z :=
  let userIds := JS.sort body_userIds in
  if JS.absent userId userIds then userIds ++ [userId] else userIds.

(** [joinRoom] from the derivation of the room key on: look the room up,
    create it when the lookup finds none and the user count agrees, and
    answer the room with its users. *)
Definition lookupOrCreate (userId : Z) (userIds : list Z)
  : Async (ChattingRoom * list (Z * User)) :=
  let roomKey := JS.join "-" userIds in
  await found ← ChattingService.getRoomByRoomKey roomKey userId ;;
  await chattingRoom ←
    match found with
    | Some room => ret room
    | None =>
        await c ← UserService.getUserCountByIds userIds ;;
        if negb (UserService.isSame c) then throw CHATTING_INVALID_MEMBER
        else ChattingService.createRoom userIds
    end ;;
  await users ← UserService.getUserByIds userIds ;;
  ret (chattingRoom, users).

(** [exports.joinRoom], the handler proper, with [userId =
    req.decoded.userId].  The validation chain in front of it lets only
    non-empty arrays through; the handler itself does not rely on that. *)
Definition joinRoom (userId : Z) (body_userIds : list Z)
  : Async (ChattingRoom * list (Z * User)) :=
  let userIds := participants userId body_userIds in
  if (length userIds <? 2)%nat then throw CHATTING_INVALID_MEMBER
  else lookupOrCreate userId userIds.

(** The room key [joinRoom] derives for a request. *)
Definition roomKey (userId : Z) (body_userIds : list Z) : string :=
  JS.join "-" (participants userId body_userIds).

(** The sort of line 118 followed by the join of line 122: the key of a
    request whose identifiers include the caller. *)
Definition resolveRoomKey (userIds : list Z) : string :=
  JS.join "-" (JS.sort userIds).

(** [req.query] of [loadMessage]; [limit] and [offset] are the numbers
    [+limit] and [+offset]. *)
Record LoadMessageQuery := mkLoadMessageQuery {
  lm_roomKey : string;
  lm_limit : option nat;
  lm_offset : option nat }.

(** [exports.loadMessage]: [const { roomKey, limit = 30, offset = 0 } =
    req.query]. *)
Definition loadMessage (userId : Z) (q : LoadMessageQuery)
  : Async (list ChattingMessage) :=
  let roomKey := lm_roomKey q in
  let limit := default 30%nat (lm_limit q) in
  let offset := default 0%nat (lm_offset q) in
  await chattingRoom ← ChattingService.getRoomByRoomKey roomKey userId ;;
  match chattingRoom with
  | None => throw CHATTING_INVALID_ROOMKEY
  | Some room => ChattingService.loadMessage (r_roomId room) limit offset
  end.

Record SendMessageBody := mkSendMessageBody {
  sm_message : string;
  sm_roomKey : string;
  sm_type : option string }.

(** [exports.sendMessage], run at the instant [now].  The broadcast to the
    sockets of the room does not touch the store and is left out. *)
Definition sendMessage (now : Z) (userId : Z) (body : SendMessageBody)
  : Async ChattingMessage :=
  await chattingRoom ←
    ChattingService.getRoomByRoomKey (sm_roomKey body) userId ;;
  match chattingRoom with
  | None => throw CHATTING_INVALID_ROOMKEY
  | Some room =>
      ChattingService.createMessage now userId (sm_message body)
                                    (r_roomId room) (sm_type body)
  end.

End Chatting.

(** ** [controllers/shopper.controller.js] *)

Module Shopper.

(** [if (req.query.shopperId === 'me') req.query.shopperId =
    req.decoded.userId] *)
Definition resolveOwner (userId : Z) (q : OrderService.Query)
  : OrderService.Query :=
  if decide (OrderService.ownerId q = Some (JS.Str "me"))
  then OrderService.with_owner (JS.Num userId) q
  else q.

(** [exports.getOrders] *)
Definition getOrders (userId : Z) (q : OrderService.Query)
  : Async OrderService.OrderPage :=
  ShopperService.getOrders (resolveOwner userId q).

(** [exports.createOrderRequest]: [orderId] from [req.params], the runner is
    the caller. *)
Definition createOrderRequest (orderId : Z) (userId : Z) : Async OrderRequest :=
  let runnerId := userId in
  ShopperService.createOrderRequest orderId runnerId.

(** [exports.updateOrderRequest]: [Object.assign(req.body, req.params)] *)
Definition updateOrderRequest (body_requestStatus : RequestStatus)
    (params_requestId : Z) : Async unit :=
  ShopperService.updateOrderRequest params_requestId body_requestStatus.

End Shopper.

(** ** The runner controller *)

Module Runner.

(** [if (req.query.runnerId === 'me') req.query.runnerId =
    req.decoded.userId] *)
Definition resolveOwner (userId : Z) (q : OrderService.Query)
  : OrderService.Query :=
  if decide (OrderService.ownerId q = Some (JS.Str "me"))
  then OrderService.with_owner (JS.Num userId) q
  else q.

(** [exports.getOrders] *)
Definition getOrders (userId : Z) (q : OrderService.Query)
  : Async OrderService.OrderPage :=
  RunnerService.getOrders (resolveOwner userId q).

(** [exports.createOrderRequest]: [Object.assign({ shopperId }, req.body,
    req.params)], so a [shopperId] in the body replaces the caller's. *)
Definition createOrderRequest (userId : Z) (body_shopperId : option Z)
    (params_orderId : Z) : Async OrderRequest :=
  let shopperId := default userId body_shopperId in
  RunnerService.createOrderRequest params_orderId shopperId.

(** [exports.updateOrderRequest]: [Object.assign(req.body, req.params)] *)
Definition updateOrderRequest (body_requestStatus : RequestStatus)
    (params_requestId : Z) : Async unit :=
  RunnerService.updateOrderRequest params_requestId body_requestStatus.

End Runner.

(** ** More JavaScript: string methods and objects *)

Module JSString.

(** [s.split(sep)] for a separator of one character: the pieces between the
    occurrences of the separator, the empty string giving one empty piece. *)
Fixpoint split (sep : ascii) (s : string) : list string :=
  match s with
  | EmptyString => [EmptyString]
  | String c rest =>
      if Ascii.eqb c sep then EmptyString :: split sep rest
      else match split sep rest with
           | [] => [String c EmptyString]
           | piece :: pieces => String c piece :: pieces
           end
  end.

(** [s.replace(c, r)] for a pattern that is a string of the one character
    [c] and a replacement [r] without [$]: the first occurrence of [c] is
    replaced, later ones stay. *)
Fixpoint replace (c : ascii) (r : string) (s : string) : string :=
  match s with
  | EmptyString => EmptyString
  | String a rest =>
      if Ascii.eqb a c then (r ++ rest)%string else String a (replace c r rest)
  end.

(** How often the character [c] occurs in [s]. *)
Fixpoint occurrences (c : ascii) (s : string) : nat :=
  match s with
  | EmptyString => 0%nat
  | String a rest => ((if Ascii.eqb a c then 1 else 0) + occurrences c rest)%nat
  end.

End JSString.

Module JSObject.

(** An object with string keys, as [req.body], [req.params] or an uploaded
    file. *)
Abbreviation object := (gmap string JS.value).

(** [Object.assign(target, ...sources)]: the properties of each source are
    copied onto the target in turn, a later source winning over an earlier
    one and over the target. *)
Definition assign (target : object) (sources : list object) : object :=
  foldl (λ acc source, source ∪ acc) target sources.

End JSObject.

(** ** [controllers/chatting.controller.js], [room] *)

Module ChattingLookup.

(** Modelled from the spec: the user service is handed the strings
    [roomKey.split('-')]; storage reads a string as the decimal numeral it
    spells, and a string that spells none matches no user. *)
Definition numerals (keys : list string) : list Z :=
  omap (λ key, OrderService.toNumber (JS.Str key)) keys.

(** [exports.room] for a [roomKey] that arrives as one string: the room
    stored under the key, or [null], and the users the key names.  A query
    that repeats the parameter hands the handler an array, which has no
    [split]; that request ends in a TypeError and is not covered here. *)
Definition room (userId : Z) (roomKey : string)
  : Async (option ChattingRoom * list (Z * User)) :=
  await chattingRoom ← ChattingService.getRoomByRoomKey roomKey userId ;;
  await users ←
    UserService.getUserByIds (numerals (JSString.split "-" roomKey)) ;;
  ret (chattingRoom, users).

End ChattingLookup.

(** ** [controllers/chatting.controller.js], the check in front of [joinRoom] *)

Module ChattingChain.

(** [body('userIds').custom(userIds => Array.isArray(userIds) &&
    userIds.length > 0)]: the identifiers of the body are a list here, so
    what is left of the check is that the list is not empty.  A request
    that fails it is answered by the validation middleware and does not
    reach the handler. *)
Definition userIds_custom (userIds : list Z) : bool :=
  (0 <? length userIds)%nat.

End ChattingChain.

(** ** Handlers that build the object they hand to a service

    The services behind these handlers are not part of the sources; each
    handler takes the service operation it calls as a parameter. *)

Module ShopperObjects.

(** [exports.createOrder]: [Object.assign({ shopperId }, req.body,
    req.params)] *)
Definition createOrder {R} (service : JSObject.object → Async R)
    (userId : Z) (body params : JSObject.object) : Async R :=
  let shopperId := JS.Num userId in
  let order := JSObject.assign {[ "shopperId"%string := shopperId ]} [body; params] in
  service order.

(** [exports.updateOrderRequest]: [Object.assign(req.body, req.params)] *)
Definition updateOrderRequest {R} (service : JSObject.object → Async R)
    (body params : JSObject.object) : Async R :=
  let request := JSObject.assign body [params] in
  service request.

(** [exports.deleteOrderRequest]: [Object.assign(req.body, req.params)] *)
Definition deleteOrderRequest {R} (service : JSObject.object → Async R)
    (body params : JSObject.object) : Async R :=
  let request := JSObject.assign body [params] in
  service request.

(** [exports.getRequests]: the sentinel is resolved as in [getOrders]. *)
Definition getRequests {R} (service : OrderService.Query → Async R)
    (userId : Z) (q : OrderService.Query) : Async R :=
  service (Shopper.resolveOwner userId q).

End ShopperObjects.

Module RunnerObjects.

(** [exports.createOrder]: [Object.assign({ runnerId }, req.body,
    req.params)] *)
Definition createOrder {R} (service : JSObject.object → Async R)
    (userId : Z) (body params : JSObject.object) : Async R :=
  let runnerId := JS.Num userId in
  let order := JSObject.assign {[ "runnerId"%string := runnerId ]} [body; params] in
  service order.

(** [exports.createOrderRequest]: [Object.assign({ shopperId }, req.body,
    req.params)] *)
Definition createOrderRequest {R} (service : JSObject.object → Async R)
    (userId : Z) (body params : JSObject.object) : Async R :=
  let shopperId := JS.Num userId in
  let shopperOrder :=
    JSObject.assign {[ "shopperId"%string := shopperId ]} [body; params] in
  service shopperOrder.

(** [exports.updateOrderRequest]: [Object.assign(req.body, req.params)] *)
Definition updateOrderRequest {R} (service : JSObject.object → Async R)
    (body params : JSObject.object) : Async R :=
  let request := JSObject.assign body [params] in
  service request.

(** [exports.deleteOrderRequest]: [Object.assign(req.body, req.params)] *)
Definition deleteOrderRequest {R} (service : JSObject.object → Async R)
    (body params : JSObject.object) : Async R :=
  let request := JSObject.assign body [params] in
  service request.

(** [exports.getRequests]: the sentinel is resolved as in [getOrders]. *)
Definition getRequests {R} (service : OrderService.Query → Async R)
    (userId : Z) (q : OrderService.Query) : Async R :=
  service (Runner.resolveOwner userId q).

End RunnerObjects.

(** ** [controllers/user.controller.js], [updateUser] *)

Module UserObjects.

(** [exports.updateUser]: [const user = req.body; user.userId = userId],
    then the update and the read of the caller's row. *)
Definition updateUser {R} (service_updateUser : JSObject.object → Async unit)
    (service_getUserById : Z → Async R)
    (userId : Z) (body : JSObject.object) : Async R :=
  let user := <[ "userId"%string := JS.Num userId ]> body in
  await _ ← service_updateUser user ;;
  await updatedUser ← service_getUserById userId ;;
  ret updatedUser.

End UserObjects.

(** ** [controllers/upload.controller.js] *)

Module Upload.

Definition allowTypes : list string :=
  ["userProfileImage"; "shopperOrderImages"]%string.

(** [allowTypes.indexOf(type) > -1] *)
Definition allowed (type : string) : bool := bool_decide (type ∈ allowTypes).

(** The callback of [files.map]: the path gets a leading slash and its first
    backslash turned into a slash, and three properties are deleted.  A
    file whose [path] is not a string makes [file.path.replace] throw a
    TypeError, here [None]. *)
Definition publish (file : JSObject.object) : option JSObject.object :=
  match file !! "path"%string with
  | Some (JS.Str path) =>
      let file :=
        <[ "path"%string := JS.Str ("/" ++ JSString.replace "\" "/" path) ]> file in
      let file := delete "fieldname"%string file in
      let file := delete "destination"%string file in
      let file := delete "originalname"%string file in
      Some file
  | _ => None
  end.

(** The handler of [exports.upload] after the files have been stored: the
    type of the route and the files as they are answered. *)
Definition upload (type : string) (files : list JSObject.object)
  : option (string * list JSObject.object) :=
  files' ← mapM publish files;
  Some (type, files').

End Upload.

(** ** The specification's own wording, for comparison *)

Module Spec.

(** "Numerically sort participant identifiers ascending, join with [-]." *)
Definition resolveRoomKey (participantIds : list Z) : string :=
  JS.join "-" (merge_sort Z.le participantIds).

(** The transition table, row by row. *)
Definition transition_table : list (RequestStatus * RequestStatus) :=
  [ (REQUESTING, MATCHED); (REQUESTING, MATCH_FAIL);
    (MATCHED, DELIVERED_REQUEST); (MATCHED, MATCH_FAIL);
    (DELIVERED_REQUEST, DELIVERED);
    (DELIVERED, REVIEW_REQUEST);
    (REVIEW_REQUEST, REVIEWED) ].

Definition terminal (s : RequestStatus) : Prop :=
  s = MATCH_FAIL ∨ s = REVIEWED.

End Spec.

(** ** Store invariant *)

(** A room table is well formed when each room is stored under the join of
    its members and lists no member twice, as the rooms [joinRoom] creates
    are. *)
Definition rooms_wf (db : Db) : Prop :=
  Forall (λ r, r_roomKey r = JS.join "-" (r_members r) ∧ NoDup (r_members r))
         (rooms db).

(** The stores the handlers can bring about from a store without rooms:
    [joinRoom] is the only handler that writes to the room table; every
    other request, and every change made outside these handlers, leaves the
    room table as it is. *)
Inductive reachable : Db → Prop :=
| reachable_start db :
    rooms db = [] → reachable db
| reachable_joinRoom userId body_userIds db :
    reachable db → reachable (Chatting.joinRoom userId body_userIds db).2
| reachable_other db db' :
    reachable db → rooms db' = rooms db → reachable db'.

(** ** Orders of creation time *)

(** Written earlier. *)
Definition older_first (a b : ChattingMessage) : Prop :=
  m_createdAt a < m_createdAt b.

(** "Descending creation-time order (most recent first)". *)
Definition recent_first (a b : ChattingMessage) : Prop :=
  m_createdAt b ≤ m_createdAt a.

(** ** The listing the specification describes *)

(** The orders of [table] that are owned by [C] and pass the status filter
    of [q], in the window of [q]. *)
Definition owned_page (C : Z) (q : OrderService.Query) (table : list Order)
  : OrderService.OrderPage :=
  let hits :=
    List.filter (λ o, bool_decide (o_ownerId o = C)
                      && from_option (λ s, bool_decide (o_status o = s)) true
                                     (OrderService.status q)) table in
  OrderService.mkPage (length hits)
    (take (default 20%nat (OrderService.limit q))
          (drop (default 0%nat (OrderService.offset q)) hits)).

(** ** Sample stores *)

(** One room for the users 1 and 2, without messages. *)
Definition one_room : Db :=
  mkDb ∅ [mkRoom 1 "1-2" [1; 2]] [] [] [] [] [].

(** One shopper order with one request in the status [S]. *)
Definition one_request (S : RequestStatus) : Db :=
  mkDb ∅ [] [] [mkOrder 1 10 "OPEN" "groceries"] [mkRequest 1 1 2 S] [] [].

(** One shopper order, owned by user 10, and one runner order, owned by
    user 20; no requests yet. *)
Definition one_order : Db :=
  mkDb ∅ [] [] [mkOrder 1 10 "OPEN" "groceries"] []
       [mkOrder 1 20 "OPEN" "errands"] [].

(** Three active users and nothing else. *)
Definition three_users : Db :=
  mkDb (list_to_map [(1, mkUser "a@x" "a" true); (2, mkUser "b@x" "b" true);
                     (3, mkUser "c@x" "c" true)]) [] [] [] [] [] [].


(** * Properties *)

(** ** Strings, numerals and the default sort order *)

Section JS_facts.

Lemma String_leb_refl s : String.leb s s = true.
Proof.
  unfold String.leb.
  assert (String.compare s s = Eq) as ->; [|done].
  induction s as [|a s IH]; simpl; [done|].
  unfold Ascii.compare. by rewrite N.compare_refl.
Qed.

Lemma String_leb_trans s1 s2 s3 :
  String.leb s1 s2 = true → String.leb s2 s3 = true → String.leb s1 s3 = true.
Proof.
  unfold String.leb. revert s2 s3.
  induction s1 as [|a s1 IH]; intros [|b s2] [|c s3]; simpl; try done.
  unfold Ascii.compare.
  destruct (N.compare_spec (N_of_ascii a) (N_of_ascii b)) as [Hab|Hab|Hab];
    destruct (N.compare_spec (N_of_ascii b) (N_of_ascii c)) as [Hbc|Hbc|Hbc];
    destruct (N.compare_spec (N_of_ascii a) (N_of_ascii c)) as [Hac|Hac|Hac];
    try done; try lia.
  apply IH.
Qed.

Global Instance sort_le_total : Total JS.sort_le.
Proof. intros x y. apply String.leb_total. Qed.

Global Instance sort_le_trans : Transitive JS.sort_le.
Proof. intros x y z. apply String_leb_trans. Qed.

Global Instance sort_le_refl : Reflexive JS.sort_le.
Proof. intros x. apply String_leb_refl. Qed.

Lemma string_of_uint_split (d1 d2 : Decimal.uint) (t1 t2 : string) :
  JS.separator_or_end t1 → JS.separator_or_end t2 →
  (NilEmpty.string_of_uint d1 ++ t1 = NilEmpty.string_of_uint d2 ++ t2)%string →
  d1 = d2 ∧ t1 = t2.
Proof.
  intros H1 H2. revert d2.
  induction d1 as [|d1 IH|d1 IH|d1 IH|d1 IH|d1 IH|d1 IH|d1 IH|d1 IH|d1 IH|d1 IH];
    intros [|d2|d2|d2|d2|d2|d2|d2|d2|d2|d2]; simpl; intros Heq;
    try (injection Heq as Heq; apply IH in Heq as [-> ->]; done);
    try (by destruct H1 as [->|[? ->]]; destruct H2 as [->|[? ->]]; simplify_eq);
    try (injection Heq as ?; done).
Qed.

Lemma string_of_int_split (i1 i2 : Decimal.int) (t1 t2 : string) :
  JS.separator_or_end t1 → JS.separator_or_end t2 →
  (∀ d, i1 = Decimal.Pos d ∨ i1 = Decimal.Neg d → d ≠ Decimal.Nil) →
  (∀ d, i2 = Decimal.Pos d ∨ i2 = Decimal.Neg d → d ≠ Decimal.Nil) →
  (NilZero.string_of_int i1 ++ t1 = NilZero.string_of_int i2 ++ t2)%string →
  i1 = i2 ∧ t1 = t2.
Proof.
  intros H1 H2 N1 N2.
  destruct i1 as [d1|d1], i2 as [d2|d2]; simpl;
    pose proof (N1 d1 ltac:(auto)) as Hd1; pose proof (N2 d2 ltac:(auto)) as Hd2;
    unfold NilZero.string_of_uint.
  - destruct d1; [done|..]; destruct d2; try done;
      intros Heq; apply string_of_uint_split in Heq as [-> ->]; done.
  - destruct d1; [done|..]; destruct d2; try done.
  - destruct d1; [done|..]; destruct d2; try done.
  - intros Heq. injection Heq as Heq.
    destruct d1; [done|..]; destruct d2; try done;
      apply string_of_uint_split in Heq as [-> ->]; done.
Qed.

Lemma to_int_nonnil (n : Z) (d : Decimal.uint) :
  Z.to_int n = Decimal.Pos d ∨ Z.to_int n = Decimal.Neg d → d ≠ Decimal.Nil.
Proof.
  destruct n as [|p|p]; simpl; intros [[= <-]|[= <-]];
    try done; apply Unsigned.to_uint_nonnil.
Qed.

Lemma toString_split (x y : Z) (t1 t2 : string) :
  JS.separator_or_end t1 → JS.separator_or_end t2 →
  (JS.toString x ++ t1 = JS.toString y ++ t2)%string → x = y ∧ t1 = t2.
Proof.
  intros H1 H2 Heq.
  apply string_of_int_split in Heq as [Hi ->];
    [|done|done|intros d; apply to_int_nonnil..].
  split; [|done]. by apply DecimalZ.to_int_inj.
Qed.

Lemma string_app_nil_r (s : string) : (s ++ "")%string = s.
Proof.
  induction s as [|a s IH]; [done|].
  change (String a (s ++ "")%string = String a s). by rewrite IH.
Qed.

Global Instance toString_inj : Inj (=) (=) JS.toString.
Proof.
  intros x y Heq.
  apply (toString_split x y "" ""); [by left..|].
  by rewrite !string_app_nil_r.
Qed.

Lemma join_cons (x : Z) (l : list Z) :
  ∃ t, JS.separator_or_end t ∧ JS.join "-" (x :: l) = (JS.toString x ++ t)%string
       ∧ (l = [] → t = ""%string)
       ∧ (l ≠ [] → t = String "-" (JS.join "-" l)).
Proof.
  unfold JS.join. destruct l as [|y l]; simpl.
  - exists ""%string. rewrite string_app_nil_r. repeat split; [by left|done].
  - eexists. repeat split; [right; eauto|done].
Qed.

Lemma join_inj (l1 l2 : list Z) :
  JS.join "-" l1 = JS.join "-" l2 → l1 = l2.
Proof.
  revert l2. induction l1 as [|x l1 IH]; intros [|y l2] Heq.
  - done.
  - destruct (join_cons y l2) as (t & Ht & E & _).
    rewrite E in Heq. unfold JS.join in Heq. simpl in Heq.
    unfold JS.toString in *. destruct (Z.to_int y) as [[]|[]]; simpl in *; discriminate.
  - destruct (join_cons x l1) as (t & Ht & E & _).
    rewrite E in Heq. unfold JS.join in Heq. simpl in Heq.
    unfold JS.toString in *. destruct (Z.to_int x) as [[]|[]]; simpl in *; discriminate.
  - destruct (join_cons x l1) as (t1 & Ht1 & E1 & N1 & C1).
    destruct (join_cons y l2) as (t2 & Ht2 & E2 & N2 & C2).
    rewrite E1, E2 in Heq. apply toString_split in Heq as [-> Ht]; [|done..].
    f_equal. destruct l1 as [|x' l1], l2 as [|y' l2]; [done|..].
    + rewrite N1, C2 in Ht by done. done.
    + rewrite C1, N2 in Ht by done. done.
    + rewrite C1, C2 in Ht by done. injection Ht as Ht. by apply IH.
Qed.

Global Instance sort_le_antisymm : AntiSymm (=) JS.sort_le.
Proof.
  intros x y Hxy Hyx. apply (inj JS.toString). by apply String.leb_antisym.
Qed.

Lemma sort_Sorted (l : list Z) : Sorted JS.sort_le (JS.sort l).
Proof. apply (Sorted_merge_sort _). Qed.

Lemma sort_Permutation (l : list Z) : JS.sort l ≡ₚ l.
Proof. apply merge_sort_Permutation. Qed.

Lemma sort_unique (l l' : list Z) :
  Sorted JS.sort_le l' → l' ≡ₚ l → JS.sort l = l'.
Proof.
  intros Hs Hp. apply (Sorted_unique JS.sort_le); [apply sort_Sorted|done|].
  by rewrite sort_Permutation.
Qed.

Lemma sort_perm (l l' : list Z) : l ≡ₚ l' → JS.sort l = JS.sort l'.
Proof.
  intros Hp. apply sort_unique; [apply sort_Sorted|].
  by rewrite sort_Permutation.
Qed.

End JS_facts.

(** ** The room key *)

Section RoomKey.

Lemma participants_present (u : Z) (ids : list Z) :
  u ∈ ids → Chatting.participants u ids = JS.sort ids.
Proof.
  intros Hu. unfold Chatting.participants, JS.absent.
  rewrite bool_decide_eq_false_2; [done|].
  intros Hn. apply Hn. by rewrite sort_Permutation.
Qed.

Lemma participants_absent (u : Z) (ids : list Z) :
  u ∉ ids → Chatting.participants u ids = JS.sort ids ++ [u].
Proof.
  intros Hu. unfold Chatting.participants, JS.absent.
  rewrite bool_decide_eq_true_2; [done|]. by rewrite sort_Permutation.
Qed.

Lemma participants_perm (u : Z) (ids ids' : list Z) :
  ids ≡ₚ ids' → Chatting.participants u ids = Chatting.participants u ids'.
Proof. intros Hp. unfold Chatting.participants. by rewrite (sort_perm _ _ Hp). Qed.

Lemma participants_requester (u : Z) (ids : list Z) :
  u ∈ Chatting.participants u ids.
Proof.
  destruct (decide (u ∈ ids)) as [Hu|Hu].
  - rewrite participants_present by done. by rewrite sort_Permutation.
  - rewrite participants_absent by done. apply elem_of_app. right. by left.
Qed.

Lemma roomKey_present (u : Z) (ids : list Z) :
  u ∈ ids → Chatting.roomKey u ids = Chatting.resolveRoomKey ids.
Proof.
  intros Hu. unfold Chatting.roomKey. by rewrite participants_present.
Qed.

(** Single digits sort as numbers. *)
Lemma sort_le_digits (x y : Z) :
  0 ≤ x ≤ 9 → 0 ≤ y ≤ 9 → JS.sort_le x y ↔ x ≤ y.
Proof.
  intros Hx Hy.
  assert (Forall (λ a, Forall (λ b,
            bool_decide (JS.sort_le a b) = bool_decide (a ≤ b)) (seqZ 0 10))
          (seqZ 0 10)) as Hall.
  { vm_compute. repeat constructor. }
  rewrite Forall_forall in Hall.
  specialize (Hall x). rewrite elem_of_seqZ in Hall.
  specialize (Hall ltac:(lia)). rewrite Forall_forall in Hall.
  specialize (Hall y). rewrite elem_of_seqZ in Hall.
  specialize (Hall ltac:(lia)).
  by rewrite <-(bool_decide_eq_true (JS.sort_le x y)), Hall, bool_decide_eq_true.
Qed.

Lemma Sorted_digits (l : list Z) :
  Forall (λ x, 0 ≤ x ≤ 9) l → Sorted Z.le l → Sorted JS.sort_le l.
Proof.
  intros Hd. induction 1 as [|x l Hs IH Hhd]; [constructor|].
  apply Forall_cons in Hd as [Hx Hd]. constructor; [by apply IH|].
  destruct Hhd as [|y l' Hxy]; constructor.
  apply Forall_cons in Hd as [Hy _]. by apply sort_le_digits.
Qed.

(** On single-digit identifiers the two orders agree, and so do the keys. *)
Lemma resolveRoomKey_single_digits (P : list Z) :
  Forall (λ x, 0 ≤ x ≤ 9) P →
  Chatting.resolveRoomKey P = Spec.resolveRoomKey P.
Proof.
  intros Hd. unfold Chatting.resolveRoomKey, Spec.resolveRoomKey. f_equal.
  apply sort_unique; [|apply merge_sort_Permutation].
  apply Sorted_digits; [by rewrite merge_sort_Permutation|].
  apply (Sorted_merge_sort _).
Qed.

(** C1, as stated, fails: the key is not the numerically sorted one.  For
    the identifiers 9 and 10 the handler derives "10-9", the numeric order
    gives "9-10". *)
Lemma resolveRoomKey_not_numeric :
  ¬ (∀ P : list Z, P ≠ [] → Chatting.resolveRoomKey P = Spec.resolveRoomKey P).
Proof.
  intros H. specialize (H [9; 10] ltac:(done)).
  vm_compute in H. discriminate H.
Qed.

(** C1, amended: the identifiers are sorted ascending in the order of their
    decimal numerals compared as strings (the default order of [sort]) and
    joined with [-]; any arrangement of the identifiers that is sorted in
    that order gives the key; the key is the same for every permutation of
    the identifiers, also as [joinRoom] derives it for a caller [u]; and
    {3,1,2} and {2,3,1} both give "1-2-3". *)
Theorem resolveRoomKey_canonical (u : Z) (P P' : list Z) :
  P ≡ₚ P' →
  (Sorted JS.sort_le (JS.sort P) ∧ JS.sort P ≡ₚ P
   ∧ Chatting.resolveRoomKey P = JS.join "-" (JS.sort P))
  ∧ (∀ l, Sorted JS.sort_le l → l ≡ₚ P → Chatting.resolveRoomKey P = JS.join "-" l)
  ∧ Chatting.resolveRoomKey P = Chatting.resolveRoomKey P'
  ∧ Chatting.roomKey u P = Chatting.roomKey u P'
  ∧ (u ∈ P → Chatting.roomKey u P = Chatting.resolveRoomKey P)
  ∧ Chatting.resolveRoomKey [3; 1; 2] = "1-2-3"%string
  ∧ Chatting.resolveRoomKey [2; 3; 1] = "1-2-3"%string.
Proof.
  intros Hp. repeat split.
  - apply sort_Sorted.
  - apply sort_Permutation.
  - intros l Hs Hl. unfold Chatting.resolveRoomKey. by rewrite (sort_unique P l).
  - unfold Chatting.resolveRoomKey. by rewrite (sort_perm _ _ Hp).
  - unfold Chatting.roomKey. by rewrite (participants_perm _ _ _ Hp).
  - apply roomKey_present.
Qed.

(** The key of 10, 9 and 2 in two orders. *)
Lemma resolveRoomKey_canonical_witness :
  [10; 9; 2] ≡ₚ [2; 10; 9]
  ∧ Chatting.resolveRoomKey [10; 9; 2] = Chatting.resolveRoomKey [2; 10; 9].
Proof.
  assert ([10; 9; 2] ≡ₚ [2; 10; 9]) as Hp
    by apply (Permutation_app_comm [10; 9] [2]).
  split; [exact Hp|].
  exact (proj1 (proj2 (proj2 (resolveRoomKey_canonical 2 _ _ Hp)))).
Defined.


Lemma Sorted_snoc_iff (l : list Z) (x : Z) :
  Sorted JS.sort_le (l ++ [x])
  ↔ Sorted JS.sort_le l ∧ Forall (λ y, JS.sort_le y x) l.
Proof.
  split.
  - intros Hs%(Sorted_StronglySorted _).
    apply StronglySorted_app in Hs as (Hx & Hl & _).
    split; [by apply StronglySorted_Sorted|].
    apply Forall_forall. intros y Hy. apply Hx; [done|by left].
  - intros [Hs%(Sorted_StronglySorted _) Hx]. apply StronglySorted_Sorted.
    apply StronglySorted_app_2; [|done|repeat constructor].
    intros x1 x2 H1 ->%list_elem_of_singleton.
    by apply (proj1 (Forall_forall _ _) Hx).
Qed.

(** When the caller is not among the identifiers, the key [joinRoom] derives
    is the canonical key of the whole participant list exactly when no
    identifier sorts after the caller. *)
Lemma roomKey_absent_canonical_iff (u : Z) (ids : list Z) :
  u ∉ ids →
  Chatting.roomKey u ids = Chatting.resolveRoomKey (ids ++ [u])
  ↔ Forall (λ y, JS.sort_le y u) ids.
Proof.
  intros Hu. unfold Chatting.roomKey, Chatting.resolveRoomKey.
  rewrite participants_absent by done. split.
  - intros Heq%join_inj.
    pose proof (sort_Sorted (ids ++ [u])) as Hs. rewrite <-Heq in Hs.
    apply Sorted_snoc_iff in Hs as [_ Hs]. by rewrite sort_Permutation in Hs.
  - intros Hall. f_equal. symmetry. apply sort_unique.
    + apply Sorted_snoc_iff. split; [apply sort_Sorted|]. by rewrite sort_Permutation.
    + by rewrite sort_Permutation.
Qed.

(** C4, the code at the failing input: caller 2 with identifiers [1, 3]
    gets the key "1-3-2", while the same participants with the caller
    listed get "1-2-3"; the two requests, one after the other, leave two
    rooms for the one participant set. *)
Theorem roomKey_requester_appended_unsorted :
  Chatting.roomKey 2 [1; 3] = "1-3-2"%string
  ∧ Chatting.roomKey 2 [1; 2; 3] = "1-2-3"%string
  ∧ (let '(r1, db1) := Chatting.joinRoom 2 [1; 3] three_users in
     let '(r2, db2) := Chatting.joinRoom 2 [1; 2; 3] db1 in
     rooms db2 = [mkRoom 1 "1-3-2" [1; 3; 2]; mkRoom 2 "1-2-3" [1; 2; 3]]).
Proof. vm_compute. done. Qed.

End RoomKey.

(** ** Finding or creating a room *)

(** The chat handlers start by looking the room up: unfold the handler down
    to the lookup and use what is known about its result. *)
Ltac lookup_room Hf :=
  unfold Chatting.lookupOrCreate, Chatting.loadMessage, Chatting.sendMessage,
    bind, ChattingService.getRoomByRoomKey, query;
  rewrite Hf.

Section JoinRoom.

(** A list has at least as many entries as distinct entries, with equality
    only when no entry is repeated. *)
Lemma size_list_to_set_le (l : list Z) :
  (size (list_to_set (C:=gset Z) l) ≤ length l)%nat
  ∧ (size (list_to_set (C:=gset Z) l) = length l → NoDup l).
Proof.
  induction l as [|x l [IHle IHeq]].
  - rewrite list_to_set_nil, size_empty. split; [done|constructor].
  - rewrite list_to_set_cons. cbn [length].
    destruct (decide (x ∈ l)) as [Hx|Hx].
    + assert ({[x]} ∪ list_to_set l = list_to_set (C:=gset Z) l) as ->.
      { apply subseteq_union_1_L, singleton_subseteq_l.
        by apply elem_of_list_to_set. }
      split; lia.
    + rewrite size_union
        by (apply disjoint_singleton_l; by rewrite elem_of_list_to_set).
      rewrite size_singleton.
      split; [lia|]. intros Heq. constructor; [done|]. apply IHeq. lia.
Qed.

Lemma matched_lookup (P : list Z) (db : Db) (x : Z) (usr : User) :
  UserService.matched P db !! x = Some usr
  ↔ users db !! x = Some usr ∧ x ∈ P ∧ u_active usr = true.
Proof. unfold UserService.matched. by rewrite map_lookup_filter_Some. Qed.

(** When as many users are matched as identifiers were passed, the
    identifiers are pairwise distinct and each one is an active user. *)
Lemma matched_all (P : list Z) (db : Db) :
  size (UserService.matched P db) = length P →
  NoDup P
  ∧ Forall (λ x, ∃ usr, users db !! x = Some usr ∧ u_active usr = true) P.
Proof.
  intros Hsize.
  assert (dom (UserService.matched P db) ⊆ list_to_set (C:=gset Z) P) as Hsub.
  { intros x [usr Hx]%elem_of_dom. apply matched_lookup in Hx as (_ & Hx & _).
    by apply elem_of_list_to_set. }
  pose proof (subseteq_size _ _ Hsub) as Hle.
  rewrite size_dom, Hsize in Hle.
  destruct (size_list_to_set_le P) as [Hle' Hnd].
  split; [apply Hnd; lia|].
  apply set_subseteq_size_eq in Hsub; [|rewrite size_dom; lia].
  apply Forall_forall. intros x Hx.
  assert (x ∈ dom (UserService.matched P db)) as [usr Hu]%elem_of_dom
    by (rewrite Hsub; by apply elem_of_list_to_set).
  apply matched_lookup in Hu as (Hu & _ & Hact). by exists usr.
Qed.

Lemma lookupOrCreate_found (u : Z) (P : list Z) (db : Db) (room : ChattingRoom) :
  List.find (λ r, bool_decide (r_roomKey r = JS.join "-" P)) (rooms db) = Some room →
  Chatting.lookupOrCreate u P db
  = (Ok (room, map_to_list (UserService.matched P db)), db).
Proof.
  intros Hf. by lookup_room Hf.
Qed.

Lemma lookupOrCreate_rejected (u : Z) (P : list Z) (db : Db) :
  List.find (λ r, bool_decide (r_roomKey r = JS.join "-" P)) (rooms db) = None →
  size (UserService.matched P db) ≠ length P →
  Chatting.lookupOrCreate u P db = (Throw CHATTING_INVALID_MEMBER, db).
Proof.
  intros Hf Hn. lookup_room Hf. simpl. by rewrite bool_decide_eq_false_2.
Qed.

Lemma lookupOrCreate_created (u : Z) (P : list Z) (db : Db) :
  List.find (λ r, bool_decide (r_roomKey r = JS.join "-" P)) (rooms db) = None →
  size (UserService.matched P db) = length P →
  let room := mkRoom (next_id r_roomId (rooms db)) (JS.join "-" P) P in
  Chatting.lookupOrCreate u P db
  = (Ok (room, map_to_list (UserService.matched P db)),
     set_rooms (rooms db ++ [room]) db).
Proof.
  intros Hf Hn. lookup_room Hf. simpl. by rewrite bool_decide_eq_true_2.
Qed.

Lemma joinRoom_single_member (u : Z) (ids : list Z) (db : Db) :
  (length (Chatting.participants u ids) < 2)%nat →
  Chatting.joinRoom u ids db = (Throw CHATTING_INVALID_MEMBER, db).
Proof.
  intros Hlt. unfold Chatting.joinRoom.
  by destruct (Nat.ltb_spec (length (Chatting.participants u ids)) 2); [|lia].
Qed.

Lemma joinRoom_enough_members (u : Z) (ids : list Z) (db : Db) :
  (2 ≤ length (Chatting.participants u ids))%nat →
  Chatting.joinRoom u ids db
  = Chatting.lookupOrCreate u (Chatting.participants u ids) db.
Proof.
  intros Hge. unfold Chatting.joinRoom.
  by destruct (Nat.ltb_spec (length (Chatting.participants u ids)) 2); [lia|].
Qed.

Lemma find_snoc {A} (f : A → bool) (l : list A) (x : A) :
  List.find f l = None → f x = true → List.find f (l ++ [x]) = Some x.
Proof.
  induction l as [|a l IH]; simpl; intros Hn Hx; [by rewrite Hx|].
  destruct (f a); [done|]. by apply IH.
Qed.

Lemma find_Some_key (K : string) (rs : list ChattingRoom) (room : ChattingRoom) :
  List.find (λ r, bool_decide (r_roomKey r = K)) rs = Some room →
  room ∈ rs ∧ r_roomKey room = K.
Proof.
  intros [Hin Hk]%find_some. split; [by apply list_elem_of_In|].
  by apply bool_decide_eq_true in Hk.
Qed.

(** The outcomes of [joinRoom], path by path. *)
Lemma joinRoom_paths (u : Z) (ids : list Z) (db : Db) :
  let P := Chatting.participants u ids in
  let K := JS.join "-" P in
  let us := map_to_list (UserService.matched P db) in
  let new := mkRoom (next_id r_roomId (rooms db)) K P in
  (Chatting.joinRoom u ids db = (Throw CHATTING_INVALID_MEMBER, db)
   ∧ ((length P < 2)%nat
      ∨ (List.find (λ r, bool_decide (r_roomKey r = K)) (rooms db) = None
         ∧ size (UserService.matched P db) ≠ length P)))
  ∨ (∃ room,
       List.find (λ r, bool_decide (r_roomKey r = K)) (rooms db) = Some room
       ∧ (2 ≤ length P)%nat
       ∧ Chatting.joinRoom u ids db = (Ok (room, us), db))
  ∨ (List.find (λ r, bool_decide (r_roomKey r = K)) (rooms db) = None
     ∧ (2 ≤ length P)%nat
     ∧ size (UserService.matched P db) = length P
     ∧ Chatting.joinRoom u ids db
       = (Ok (new, us), set_rooms (rooms db ++ [new]) db)).
Proof.
  intros P K us new.
  destruct (decide (length P < 2)%nat) as [Hlt|Hge].
  { left. split; [by apply joinRoom_single_member|by left]. }
  rewrite joinRoom_enough_members by (fold P; lia). fold P.
  destruct (List.find (λ r, bool_decide (r_roomKey r = K)) (rooms db))
    as [room|] eqn:Hf.
  { right. left. exists room. repeat split; [lia|]. by apply lookupOrCreate_found. }
  destruct (decide (size (UserService.matched P db) = length P)) as [Heq|Hne].
  - right. right. repeat split; [lia|done|]. by apply lookupOrCreate_created.
  - left. split; [by apply lookupOrCreate_rejected|by right].
Qed.

Lemma rooms_wf_no_rooms (db : Db) : rooms db = [] → rooms_wf db.
Proof. unfold rooms_wf. intros ->. constructor. Qed.

(** [joinRoom] keeps the room table well formed: the only room it adds has
    passed the user count. *)
Lemma joinRoom_rooms_wf (u : Z) (ids : list Z) (db : Db) :
  rooms_wf db → rooms_wf (Chatting.joinRoom u ids db).2.
Proof.
  intros Hwf.
  destruct (joinRoom_paths u ids db)
    as [[-> _]|[(room & _ & _ & ->)|(_ & _ & Hsize & ->)]]; [done..|].
  unfold rooms_wf. simpl. apply Forall_app. split; [done|].
  constructor; [|constructor]. simpl. split; [done|].
  by apply matched_all in Hsize as [? _].
Qed.

(** The other handlers leave the room table as it is. *)
Lemma other_handlers_keep_rooms (db : Db) :
  (∀ now u body, rooms (Chatting.sendMessage now u body db).2 = rooms db)
  ∧ (∀ u q, rooms (Chatting.loadMessage u q db).2 = rooms db)
  ∧ (∀ orderId u, rooms (Shopper.createOrderRequest orderId u db).2 = rooms db)
  ∧ (∀ T requestId, rooms (Shopper.updateOrderRequest T requestId db).2 = rooms db)
  ∧ (∀ u body orderId,
       rooms (Runner.createOrderRequest u body orderId db).2 = rooms db)
  ∧ (∀ T requestId, rooms (Runner.updateOrderRequest T requestId db).2 = rooms db)
  ∧ (∀ u q, rooms (Shopper.getOrders u q db).2 = rooms db)
  ∧ (∀ u q, rooms (Runner.getOrders u q db).2 = rooms db).
Proof.
  split_and!; try done.
  - intros now u body.
    unfold Chatting.sendMessage, bind, ChattingService.getRoomByRoomKey, query.
    by destruct (List.find _ _).
  - intros u q.
    unfold Chatting.loadMessage, bind, ChattingService.getRoomByRoomKey, query.
    by destruct (List.find _ _).
  - intros orderId u.
    unfold Shopper.createOrderRequest, ShopperService.createOrderRequest,
      OrderService.createOrderRequest.
    by destruct (existsb _ _).
  - intros T requestId.
    unfold Shopper.updateOrderRequest, ShopperService.updateOrderRequest,
      OrderService.updateOrderRequest.
    destruct (List.find _ _); [|done]. by destruct (OrderService.allowed _ _).
  - intros u body orderId.
    unfold Runner.createOrderRequest, RunnerService.createOrderRequest,
      OrderService.createOrderRequest.
    by destruct (existsb _ _).
  - intros T requestId.
    unfold Runner.updateOrderRequest, RunnerService.updateOrderRequest,
      OrderService.updateOrderRequest.
    destruct (List.find _ _); [|done]. by destruct (OrderService.allowed _ _).
Qed.

(** Every reachable store has a well-formed room table. *)
Lemma reachable_rooms_wf (db : Db) : reachable db → rooms_wf db.
Proof.
  induction 1 as [db Hnil|u ids db _ IH|db db' _ IH Hsame].
  - by apply rooms_wf_no_rooms.
  - by apply joinRoom_rooms_wf.
  - unfold rooms_wf in *. by rewrite Hsame.
Qed.

(** C7: whenever [joinRoom] changes the room table, every identifier of the
    participant list is the identifier of an active user, the matched count
    being equal to the number of identifiers; and when no room is stored
    under the derived key and the matched count differs from the number of
    identifiers, the call throws CHATTING.INVALID_MEMBER and leaves the
    store as it was. *)
Theorem joinRoom_verifies_users (u : Z) (ids : list Z) (db : Db) :
  let P := Chatting.participants u ids in
  let K := JS.join "-" P in
  (rooms (Chatting.joinRoom u ids db).2 ≠ rooms db →
     Forall (λ x, ∃ usr, users db !! x = Some usr ∧ u_active usr = true) P
     ∧ size (UserService.matched P db) = length P)
  ∧ (List.find (λ r, bool_decide (r_roomKey r = K)) (rooms db) = None →
     size (UserService.matched P db) ≠ length P →
     Chatting.joinRoom u ids db = (Throw CHATTING_INVALID_MEMBER, db)).
Proof.
  intros P K. split.
  - destruct (joinRoom_paths u ids db)
      as [[-> _]|[(room & _ & _ & ->)|(_ & _ & Hsize & ->)]]; [done..|].
    intros _. split; [|done]. by apply matched_all in Hsize as [_ ?].
  - intros Hf Hne.
    destruct (joinRoom_paths u ids db)
      as [[-> _]|[(room & Hf' & _)|(_ & _ & Hsize & _)]]; [done|..].
    + fold P K in Hf'. congruence.
    + done.
Qed.

(** User 4 does not exist: the room for 1, 4 and caller 2 is refused. *)
Lemma joinRoom_verifies_users_witness :
  Chatting.joinRoom 2 [1; 4] three_users
  = (Throw CHATTING_INVALID_MEMBER, three_users).
Proof.
  refine (proj2 (joinRoom_verifies_users 2 [1; 4] three_users) _ _).
  - vm_compute. reflexivity.
  - vm_compute. lia.
Defined.

(** On a well-formed room table a participant list with a repeated entry is
    never answered with a room: no stored room has such a list, and the
    user count cannot agree with the number of entries. *)
Lemma joinRoom_repeated_rejected (u : Z) (ids : list Z) (db : Db) :
  rooms_wf db →
  ¬ NoDup (Chatting.participants u ids) →
  Chatting.joinRoom u ids db = (Throw CHATTING_INVALID_MEMBER, db).
Proof.
  intros Hwf Hdup.
  destruct (joinRoom_paths u ids db)
    as [[-> _]|[(room & Hf & _ & _)|(_ & _ & Hm & _)]]; [done|..]; exfalso.
  - apply find_Some_key in Hf as [Hin Hk].
    apply (proj1 (Forall_forall _ _) Hwf) in Hin as [Hkey Hnd].
    rewrite Hkey in Hk. apply join_inj in Hk. apply Hdup. by rewrite <-Hk.
  - apply matched_all in Hm as [Hnd _]. by apply Hdup.
Qed.




(** C5: on a well-formed room table (the room table of every reachable
    store), a request whose participants, caller included, are fewer than
    two distinct identifiers throws CHATTING.INVALID_MEMBER and leaves the
    store as it was, so that no room is created: a single entry is turned
    away by the size check, a repeated entry by the user count.  [joinRoom]
    for {7} by caller 7 does so on every store. *)
Theorem joinRoom_minimum_membership (u : Z) (ids : list Z) (db : Db) :
  rooms_wf db →
  (size (list_to_set (C:=gset Z) (Chatting.participants u ids)) < 2)%nat →
  Chatting.joinRoom u ids db = (Throw CHATTING_INVALID_MEMBER, db)
  ∧ (∀ db0, Chatting.joinRoom 7 [7] db0 = (Throw CHATTING_INVALID_MEMBER, db0)).
Proof.
  intros Hwf Hsize. split; [|intros db0; apply joinRoom_single_member; vm_compute; lia].
  destruct (decide (length (Chatting.participants u ids) < 2)%nat) as [Hlt|Hge].
  { by apply joinRoom_single_member. }
  apply joinRoom_repeated_rejected; [done|]. intros Hnd.
  rewrite size_list_to_set in Hsize by done. lia.
Qed.

(** [7, 7] by caller 7 is refused on a store without rooms. *)
Lemma joinRoom_minimum_membership_witness :
  rooms_wf three_users
  ∧ Chatting.joinRoom 7 [7; 7] three_users
    = (Throw CHATTING_INVALID_MEMBER, three_users).
Proof.
  assert (rooms_wf three_users) as Hwf by (by apply rooms_wf_no_rooms).
  split; [exact Hwf|].
  apply (joinRoom_minimum_membership 7 [7; 7] three_users Hwf).
  vm_compute. lia.
Defined.

(** A second request that derives the same participant list as a successful
    first one is answered with the room of the first. *)
Lemma joinRoom_again (u u' : Z) (ids ids' : list Z) (db db1 : Db)
    (room : ChattingRoom) (us : list (Z * User)) :
  Chatting.participants u ids = Chatting.participants u' ids' →
  Chatting.joinRoom u ids db = (Ok (room, us), db1) →
  Chatting.joinRoom u' ids' db1 = (Ok (room, us), db1)
  ∧ (rooms db1 = rooms db ∨ rooms db1 = rooms db ++ [room])
  ∧ List.find (λ r, bool_decide (r_roomKey r = Chatting.roomKey u ids))
              (rooms db1) = Some room.
Proof.
  intros Hp Hfirst.
  pose proof (joinRoom_paths u' ids' db1) as Hsecond.
  rewrite <-Hp in Hsecond.
  destruct (joinRoom_paths u ids db)
    as [[Hr _]|[(r & Hf & Hlen & Hr)|(Hf & Hlen & Hm & Hr)]];
    rewrite Hr in Hfirst; simplify_eq.
  - destruct Hsecond as [[_ [?|[Hf' _]]]|[(r' & Hf' & _ & ->)|(Hf' & _)]];
      [lia|congruence| |congruence].
    split_and!; [congruence|by left|done].
  - set (new := mkRoom _ _ _) in *.
    assert (List.find (λ r, bool_decide (r_roomKey r
              = JS.join "-" (Chatting.participants u ids)))
              (rooms (set_rooms (rooms db ++ [new]) db)) = Some new) as Hnew.
    { simpl. apply find_snoc; [done|]. by apply bool_decide_eq_true. }
    destruct Hsecond as [[_ [?|[Hf' _]]]|[(r' & Hf' & _ & ->)|(Hf' & _)]];
      [lia|congruence| |congruence].
    split_and!; [|by right|done].
    rewrite Hnew in Hf'. by injection Hf' as <-.
Qed.

(** X19: after a successful [joinRoom], a second [joinRoom] for the same
    identifiers in any order (by the same caller, or by another caller when
    both are listed) answers the same room and users and leaves the store
    unchanged; the first call has added at most that one room, and the
    room is the one stored under the derived key. *)
Theorem joinRoom_idempotent (u u' : Z) (ids ids' : list Z) (db db1 : Db)
    (room : ChattingRoom) (us : list (Z * User)) :
  ids ≡ₚ ids' →
  u' = u ∨ (u ∈ ids ∧ u' ∈ ids) →
  Chatting.joinRoom u ids db = (Ok (room, us), db1) →
  Chatting.joinRoom u' ids' db1 = (Ok (room, us), db1)
  ∧ (rooms db1 = rooms db ∨ rooms db1 = rooms db ++ [room])
  ∧ List.find (λ r, bool_decide (r_roomKey r = Chatting.roomKey u ids))
              (rooms db1) = Some room.
Proof.
  intros Hp Hu. apply joinRoom_again.
  destruct Hu as [->|[Hu Hu']]; [by apply participants_perm|].
  rewrite !participants_present; [by apply sort_perm| |done].
  by rewrite <-Hp.
Qed.

(** The room of 1, 3 and caller 2, asked for twice. *)
Lemma joinRoom_idempotent_witness :
  ∃ room us db1,
    Chatting.joinRoom 2 [1; 3] three_users = (Ok (room, us), db1)
    ∧ Chatting.joinRoom 2 [3; 1] db1 = (Ok (room, us), db1)
    ∧ rooms db1 = [room].
Proof.
  eexists _, _, _. split; [vm_compute; reflexivity|]. split; [|reflexivity].
  apply (joinRoom_idempotent 2 2 [1; 3] [3; 1] three_users).
  - apply (Permutation_app_comm [1] [3]).
  - left. reflexivity.
  - vm_compute. reflexivity.
Defined.

(** C3, the code at the failing input: caller 1 asks for a room with 2, then
    caller 2 asks for a room with 1.  Each caller is pushed behind the
    sorted identifiers, so the first request looks up and stores "2-1" and
    the second looks up "1-2", finds nothing and creates a second room: the
    one participant set {1, 2} gets two room identifiers. *)
Theorem joinRoom_same_set_two_rooms :
  Chatting.roomKey 1 [2] = "2-1"%string
  ∧ Chatting.roomKey 2 [1] = "1-2"%string
  ∧ ∃ room1 us1 db1 room2 us2 db2,
      Chatting.joinRoom 1 [2] three_users = (Ok (room1, us1), db1)
      ∧ Chatting.joinRoom 2 [1] db1 = (Ok (room2, us2), db2)
      ∧ r_members room1 ≡ₚ r_members room2
      ∧ r_roomId room1 ≠ r_roomId room2
      ∧ rooms db2 = [room1; room2].
Proof.
  split; [by vm_compute|]. split; [by vm_compute|].
  eexists _, _, _, _, _, _.
  split; [vm_compute; reflexivity|]. split; [vm_compute; reflexivity|].
  split_and!; [apply (Permutation_app_comm [2] [1])|done|done].
Qed.

End JoinRoom.

(** ** Order requests *)

Section Requests.

(** The service accepts exactly the pairs of the transition table. *)
Lemma allowed_table (S T : RequestStatus) :
  OrderService.allowed S T = bool_decide ((S, T) ∈ Spec.transition_table).
Proof. by destruct S, T. Qed.

Lemma terminal_not_allowed (S T : RequestStatus) :
  Spec.terminal S → OrderService.allowed S T = false.
Proof. by intros [-> | ->]; destruct T. Qed.

Lemma find_map_status (requestId : Z) (T : RequestStatus) (table : list OrderRequest) :
  List.find (λ q, bool_decide (q_requestId q = requestId))
    (map (λ r', if bool_decide (q_requestId r' = requestId)
                then OrderService.set_status T r' else r') table)
  = OrderService.set_status T
      <$> List.find (λ q, bool_decide (q_requestId q = requestId)) table.
Proof.
  induction table as [|a l IH]; [done|]. cbn [map List.find].
  destruct (decide (q_requestId a = requestId)) as [Ha|Ha].
  - rewrite (bool_decide_eq_true_2 _ Ha). cbn [OrderService.set_status q_requestId].
    by rewrite (bool_decide_eq_true_2 _ Ha).
  - by rewrite !(bool_decide_eq_false_2 _ Ha).
Qed.

Lemma set_shopperOrderRequests_same (db : Db) :
  set_shopperOrderRequests (shopperOrderRequests db) db = db.
Proof. by destruct db. Qed.

Lemma set_runnerOrderRequests_same (db : Db) :
  set_runnerOrderRequests (runnerOrderRequests db) db = db.
Proof. by destruct db. Qed.

Lemma service_update_found (requestId : Z) (T : RequestStatus)
    (table : list OrderRequest) (r : OrderRequest) :
  List.find (λ q, bool_decide (q_requestId q = requestId)) table = Some r →
  OrderService.updateOrderRequest requestId T table
  = if bool_decide ((q_requestStatus r, T) ∈ Spec.transition_table)
    then (Ok tt,
          map (λ r', if bool_decide (q_requestId r' = requestId)
                     then OrderService.set_status T r' else r') table)
    else (Throw InvalidTransition, table).
Proof.
  intros Hf. unfold OrderService.updateOrderRequest.
  by rewrite Hf, allowed_table.
Qed.

(** C2: for a stored request with status [S] and a requested status [T],
    [updateOrderRequest] succeeds exactly when [(S, T)] is a row of the
    transition table, and then the request carries [T]; for every other
    pair it fails with InvalidTransition and leaves the store as it was; in
    particular every update of a request in MATCH_FAIL or REVIEWED fails. *)
Theorem updateOrderRequest_transition_table (db : Db) (requestId : Z)
    (r : OrderRequest) (T : RequestStatus) :
  List.find (λ q, bool_decide (q_requestId q = requestId))
            (shopperOrderRequests db) = Some r →
  ((q_requestStatus r, T) ∈ Spec.transition_table →
     ∃ db', Shopper.updateOrderRequest T requestId db = (Ok tt, db')
            ∧ List.find (λ q, bool_decide (q_requestId q = requestId))
                        (shopperOrderRequests db')
              = Some (OrderService.set_status T r))
  ∧ ((q_requestStatus r, T) ∉ Spec.transition_table →
     Shopper.updateOrderRequest T requestId db = (Throw InvalidTransition, db))
  ∧ (Spec.terminal (q_requestStatus r) →
     Shopper.updateOrderRequest T requestId db = (Throw InvalidTransition, db))
  ∧ (fst (Shopper.updateOrderRequest T requestId db) = Ok tt
     ↔ (q_requestStatus r, T) ∈ Spec.transition_table).
Proof.
  intros Hf.
  unfold Shopper.updateOrderRequest, ShopperService.updateOrderRequest.
  rewrite (service_update_found _ _ _ _ Hf).
  split_and!.
  - intros Hin. rewrite bool_decide_eq_true_2 by done.
    eexists. split; [done|]. simpl. by rewrite find_map_status, Hf.
  - intros Hout. rewrite bool_decide_eq_false_2 by done.
    by rewrite set_shopperOrderRequests_same.
  - intros Hterm. pose proof (terminal_not_allowed _ T Hterm) as Hna.
    rewrite allowed_table in Hna. rewrite Hna.
    by rewrite set_shopperOrderRequests_same.
  - case_bool_decide; simpl; split; done.
Qed.

(** REQUESTING to DELIVERED is refused. *)
Lemma updateOrderRequest_transition_table_witness :
  Shopper.updateOrderRequest DELIVERED 1 (one_request REQUESTING)
  = (Throw InvalidTransition, one_request REQUESTING).
Proof.
  refine (proj1 (proj2 (updateOrderRequest_transition_table
            (one_request REQUESTING) 1 (mkRequest 1 1 2 REQUESTING) DELIVERED
            _)) _).
  - reflexivity.
  - apply (proj1 (bool_decide_eq_false _)). reflexivity.
Defined.

Lemma updateOrderRequest_unknown (db : Db) (requestId : Z) (T : RequestStatus) :
  List.find (λ q, bool_decide (q_requestId q = requestId))
            (shopperOrderRequests db) = None →
  Shopper.updateOrderRequest T requestId db = (Throw NotFound, db).
Proof.
  intros Hf.
  unfold Shopper.updateOrderRequest, ShopperService.updateOrderRequest,
    OrderService.updateOrderRequest.
  rewrite Hf. by rewrite set_shopperOrderRequests_same.
Qed.

(** The runner handler obeys the same table. *)
Lemma Runner_update_obeys_table (db : Db) (requestId : Z)
    (r : OrderRequest) (T : RequestStatus) :
  List.find (λ q, bool_decide (q_requestId q = requestId))
            (runnerOrderRequests db) = Some r →
  (fst (Runner.updateOrderRequest T requestId db) = Ok tt
   ↔ (q_requestStatus r, T) ∈ Spec.transition_table)
  ∧ ((q_requestStatus r, T) ∉ Spec.transition_table →
     Runner.updateOrderRequest T requestId db = (Throw InvalidTransition, db)).
Proof.
  intros Hf.
  unfold Runner.updateOrderRequest, RunnerService.updateOrderRequest.
  rewrite (service_update_found _ _ _ _ Hf). split.
  - case_bool_decide; simpl; split; done.
  - intros Hout. rewrite bool_decide_eq_false_2 by done.
    by rewrite set_runnerOrderRequests_same.
Qed.

(** [createOrderRequest] looks at the order table only: for an existing
    order it appends a new request whatever requests are stored. *)
Lemma createOrderRequest_appends (db : Db) (orderId userId : Z) :
  existsb (λ o, bool_decide (o_orderId o = orderId)) (shopperOrders db) = true →
  let row := mkRequest (next_id q_requestId (shopperOrderRequests db))
                       orderId userId REQUESTING in
  Shopper.createOrderRequest orderId userId db
  = (Ok row, set_shopperOrderRequests (shopperOrderRequests db ++ [row]) db).
Proof.
  intros Hex. unfold Shopper.createOrderRequest,
    ShopperService.createOrderRequest, OrderService.createOrderRequest.
  by rewrite Hex.
Qed.

Lemma createOrderRequest_never_Conflict (db : Db) (orderId userId : Z) :
  fst (Shopper.createOrderRequest orderId userId db) ≠ Throw Conflict.
Proof.
  unfold Shopper.createOrderRequest, ShopperService.createOrderRequest,
    OrderService.createOrderRequest.
  by destruct (existsb _ _).
Qed.

(** C6, the code at the failing input: the same runner asks twice for the
    same shopper order; both calls succeed and two REQUESTING requests for
    the pair are stored.  The runner-side handler does the same. *)
Theorem createOrderRequest_duplicate_accepted :
  let '(first, db1) := Shopper.createOrderRequest 1 2 one_order in
  let '(second, db2) := Shopper.createOrderRequest 1 2 db1 in
  first = Ok (mkRequest 1 1 2 REQUESTING)
  ∧ second = Ok (mkRequest 2 1 2 REQUESTING)
  ∧ shopperOrderRequests db2
    = [mkRequest 1 1 2 REQUESTING; mkRequest 2 1 2 REQUESTING]
  ∧ (let '(third, db3) := Runner.createOrderRequest 2 None 1 db2 in
     let '(fourth, db4) := Runner.createOrderRequest 2 None 1 db3 in
     fourth = Ok (mkRequest 2 1 2 REQUESTING)
     ∧ runnerOrderRequests db4
       = [mkRequest 1 1 2 REQUESTING; mkRequest 2 1 2 REQUESTING]).
Proof. vm_compute. done. Qed.

End Requests.

(** ** Listing orders *)

Section Listing.

Lemma toNumber_toString (C : Z) :
  OrderService.toNumber (JS.Str (JS.toString C)) = Some C.
Proof.
  unfold OrderService.toNumber, JS.toString.
  rewrite NilZero.isi.
  - simpl. by rewrite DecimalZ.of_to.
  - intros H. by apply (to_int_nonnil C Decimal.Nil); [left|].
  - intros H. by apply (to_int_nonnil C Decimal.Nil); [right|].
Qed.

Lemma toString_not_me (C : Z) : JS.toString C ≠ "me"%string.
Proof.
  intros H. pose proof (toNumber_toString C) as Hn. by rewrite H in Hn.
Qed.

Lemma selected_same_owner (v w : JS.value) (q : OrderService.Query) (o : Order) :
  OrderService.toNumber v = OrderService.toNumber w →
  OrderService.selected (OrderService.with_owner v q) o
  = OrderService.selected (OrderService.with_owner w q) o.
Proof.
  intros H. unfold OrderService.selected, OrderService.owned_by. simpl.
  by rewrite H.
Qed.

Lemma service_getOrders_same_owner (v w : JS.value) (q : OrderService.Query)
    (table : list Order) :
  OrderService.toNumber v = OrderService.toNumber w →
  OrderService.getOrders table (OrderService.with_owner v q)
  = OrderService.getOrders table (OrderService.with_owner w q).
Proof.
  intros H. unfold OrderService.getOrders.
  assert (List.filter (OrderService.selected (OrderService.with_owner v q)) table
          = List.filter (OrderService.selected (OrderService.with_owner w q)) table)
    as ->; [|done].
  induction table as [|o l IH]; simpl; [done|].
  by rewrite (selected_same_owner v w q o H), IH.
Qed.

Lemma resolveOwner_me (C : Z) (q : OrderService.Query) :
  OrderService.ownerId q = Some (JS.Str "me") →
  Shopper.resolveOwner C q = OrderService.with_owner (JS.Num C) q.
Proof. intros H. unfold Shopper.resolveOwner. by rewrite decide_True. Qed.

Lemma resolveOwner_other (C : Z) (q : OrderService.Query) :
  OrderService.ownerId q ≠ Some (JS.Str "me") → Shopper.resolveOwner C q = q.
Proof. intros H. unfold Shopper.resolveOwner. by rewrite decide_False. Qed.

Lemma resolveOwner_never_me (C : Z) (q : OrderService.Query) :
  OrderService.ownerId (Shopper.resolveOwner C q) ≠ Some (JS.Str "me").
Proof. unfold Shopper.resolveOwner. by case_decide. Qed.

Lemma Runner_resolveOwner_eq (C : Z) (q : OrderService.Query) :
  Runner.resolveOwner C q = Shopper.resolveOwner C q.
Proof. done. Qed.

(** C8: for a caller [C], listing with the owner filter "me" gives the same
    result as listing with the owner filter that spells [C]: the handler
    hands the service the query with the caller's identifier in place of
    the sentinel, the answer is the page of the orders owned by [C], and no
    query leaves the handler with the literal "me" as owner.  The same holds
    for runner orders. *)
Theorem getOrders_me_is_caller (db : Db) (C : Z) (q : OrderService.Query) :
  OrderService.ownerId q = Some (JS.Str "me") →
  let explicit := OrderService.with_owner (JS.Str (JS.toString C)) q in
  Shopper.getOrders C q db = Shopper.getOrders C explicit db
  ∧ Shopper.getOrders C q db
    = ShopperService.getOrders (OrderService.with_owner (JS.Num C) q) db
  ∧ Shopper.getOrders C q db = (Ok (owned_page C q (shopperOrders db)), db)
  ∧ Runner.getOrders C q db = Runner.getOrders C explicit db
  ∧ Runner.getOrders C q db = (Ok (owned_page C q (runnerOrders db)), db)
  ∧ (∀ q', OrderService.ownerId (Shopper.resolveOwner C q') ≠ Some (JS.Str "me"))
  ∧ (∀ q', OrderService.ownerId (Runner.resolveOwner C q') ≠ Some (JS.Str "me")).
Proof.
  intros Hme explicit.
  assert (Shopper.resolveOwner C explicit = explicit) as Hex.
  { apply resolveOwner_other. simpl. intros [= H]. by apply toString_not_me in H. }
  assert (∀ table,
    OrderService.getOrders table (OrderService.with_owner (JS.Num C) q)
    = OrderService.getOrders table explicit) as Hsame.
  { intros table. apply service_getOrders_same_owner. simpl.
    symmetry. apply toNumber_toString. }
  unfold Runner.getOrders, Shopper.getOrders.
  change (Runner.resolveOwner C) with (Shopper.resolveOwner C). rewrite Hex.
  rewrite (resolveOwner_me C q Hme).
  unfold ShopperService.getOrders, RunnerService.getOrders, query.
  split_and!; try done.
  - by rewrite Hsame.
  - by rewrite Hsame.
  - apply resolveOwner_never_me.
  - apply resolveOwner_never_me.
Qed.

(** Caller 10 lists with "me" and with "10". *)
Lemma getOrders_me_is_caller_witness :
  Shopper.getOrders 10 (OrderService.mkQuery (Some (JS.Str "me")) None None None)
                    one_order
  = Shopper.getOrders 10 (OrderService.mkQuery (Some (JS.Str "10")) None None None)
                      one_order.
Proof.
  exact (proj1 (getOrders_me_is_caller one_order 10
                  (OrderService.mkQuery (Some (JS.Str "me")) None None None)
                  eq_refl)).
Defined.

End Listing.

(** ** The message feed *)

Section Messages.

Global Instance newer_total : Total ChattingService.newer.
Proof. intros a b. unfold ChattingService.newer. lia. Qed.

Global Instance newer_trans : Transitive ChattingService.newer.
Proof. intros a b c. unfold ChattingService.newer. lia. Qed.

Lemma feed_sorted (roomId : Z) (db : Db) :
  StronglySorted ChattingService.newer (ChattingService.feed roomId db).
Proof. apply (StronglySorted_merge_sort _). Qed.

Lemma StronglySorted_weaken {A} (R S : relation A) (l : list A) :
  (∀ a b, R a b → S a b) → StronglySorted R l → StronglySorted S l.
Proof.
  intros HRS. induction 1 as [|a l Hl IH Ha]; constructor; [done|].
  eapply Forall_impl; [exact Ha|]. auto.
Qed.

Lemma StronglySorted_slice {A} (R : relation A) (l : list A) (n k : nat) :
  StronglySorted R l → StronglySorted R (take n (drop k l)).
Proof.
  intros Hl. rewrite <-(take_drop k l) in Hl.
  apply StronglySorted_app_1_r in Hl.
  rewrite <-(take_drop n (drop k l)) in Hl.
  by apply StronglySorted_app_1_l in Hl.
Qed.

Lemma page_recent_first (roomId : Z) (limit offset : nat) (db : Db) :
  StronglySorted recent_first
    (take limit (drop offset (ChattingService.feed roomId db))).
Proof.
  apply StronglySorted_slice.
  apply (StronglySorted_weaken ChattingService.newer); [|apply feed_sorted].
  unfold ChattingService.newer, recent_first. lia.
Qed.

Lemma older_first_createdAt_inj (l : list ChattingMessage) (a b : ChattingMessage) :
  StronglySorted older_first l → a ∈ l → b ∈ l →
  m_createdAt a = m_createdAt b → a = b.
Proof.
  induction 1 as [|x l Hl IH Hx]; [by intros ?%elem_of_nil|].
  rewrite Forall_forall in Hx. unfold older_first in Hx.
  intros [->|Ha]%elem_of_cons [->|Hb]%elem_of_cons Heq; [done|..].
  - apply Hx in Hb. lia.
  - apply Hx in Ha. lia.
  - by apply IH.
Qed.

Lemma older_first_reverse (l : list ChattingMessage) :
  StronglySorted older_first l →
  StronglySorted ChattingService.newer (reverse l).
Proof.
  induction 1 as [|x l Hl IH Hx]; [constructor|].
  rewrite reverse_cons. apply StronglySorted_app_2; [|done|repeat constructor].
  intros a b Ha ->%list_elem_of_singleton. rewrite elem_of_reverse in Ha.
  rewrite Forall_forall in Hx. apply Hx in Ha.
  unfold older_first in Ha. unfold ChattingService.newer. lia.
Qed.

(** Messages written at strictly increasing instants are fed back in the
    reverse of the order in which they were written. *)
Lemma merge_sort_older_first (l : list ChattingMessage) :
  StronglySorted older_first l →
  merge_sort ChattingService.newer l = reverse l.
Proof.
  intros Hl. apply (StronglySorted_unique_strong ChattingService.newer).
  - intros a b Ha Hb Hab Hba.
    rewrite merge_sort_Permutation in Ha. rewrite elem_of_reverse in Hb.
    apply (older_first_createdAt_inj l); [done..|].
    unfold ChattingService.newer in *. lia.
  - apply (StronglySorted_merge_sort _).
  - by apply older_first_reverse.
  - by rewrite merge_sort_Permutation, reverse_Permutation.
Qed.

Lemma loadMessage_found (u : Z) (q : Chatting.LoadMessageQuery) (db : Db)
    (room : ChattingRoom) :
  List.find (λ r, bool_decide (r_roomKey r = Chatting.lm_roomKey q)) (rooms db)
    = Some room →
  Chatting.loadMessage u q db
  = (Ok (take (default 30%nat (Chatting.lm_limit q))
              (drop (default 0%nat (Chatting.lm_offset q))
                    (ChattingService.feed (r_roomId room) db))), db).
Proof.
  intros Hf. by lookup_room Hf.
Qed.

Lemma loadMessage_unknown (u : Z) (q : Chatting.LoadMessageQuery) (db : Db) :
  List.find (λ r, bool_decide (r_roomKey r = Chatting.lm_roomKey q)) (rooms db)
    = None →
  Chatting.loadMessage u q db = (Throw CHATTING_INVALID_ROOMKEY, db).
Proof.
  intros Hf. by lookup_room Hf.
Qed.

Lemma sendMessage_found (now u : Z) (body : Chatting.SendMessageBody) (db : Db)
    (room : ChattingRoom) :
  List.find (λ r, bool_decide (r_roomKey r = Chatting.sm_roomKey body)) (rooms db)
    = Some room →
  let row := mkMessage (next_id m_messageId (messages db)) (r_roomId room) u
               (Chatting.sm_message body)
               (default "text"%string (Chatting.sm_type body)) now in
  Chatting.sendMessage now u body db
  = (Ok row, set_messages (messages db ++ [row]) db).
Proof.
  intros Hf. by lookup_room Hf.
Qed.

Lemma filter_other_rooms (rid : Z) (l : list ChattingMessage) :
  (∀ m, m ∈ l → m_roomId m ≠ rid) →
  List.filter (λ m, bool_decide (m_roomId m = rid)) l = [].
Proof.
  induction l as [|a l IH]; intros Hl; [done|]. cbn [List.filter].
  rewrite bool_decide_eq_false_2 by (apply Hl; left).
  apply IH. intros m Hm. apply Hl. by right.
Qed.

Lemma filter_same_room (rid : Z) (l : list ChattingMessage) :
  Forall (λ m, m_roomId m = rid) l →
  List.filter (λ m, bool_decide (m_roomId m = rid)) l = l.
Proof.
  induction 1 as [|a l Ha Hl IH]; [done|]. cbn [List.filter].
  by rewrite (bool_decide_eq_true_2 _ Ha), IH.
Qed.

Lemma feed_after_sends (rid : Z) (db : Db) (old news : list ChattingMessage) :
  messages db = old ++ news →
  (∀ m, m ∈ old → m_roomId m ≠ rid) →
  Forall (λ m, m_roomId m = rid) news →
  StronglySorted older_first news →
  ChattingService.feed rid db = reverse news.
Proof.
  intros Hm Hold Hnews Hs. unfold ChattingService.feed.
  rewrite Hm, List.filter_app, filter_other_rooms, filter_same_room by done.
  by apply merge_sort_older_first.
Qed.

(** C9: for a stored room, [loadMessage] without limit and offset is
    [loadMessage] with limit 30 and offset 0; every page is answered most
    recent first; a page of [n] messages at offset [k] followed by the page
    at offset [k + n] is the page of [n + n] messages at offset [k]; and
    after five messages [m1 .. m5] have been sent, one after the other at
    increasing instants, to a room without messages, the page with limit 2
    at offset 0 is [m5, m4] and the page with limit 2 at offset 2 is
    [m3, m2]: four distinct messages, strictly descending in creation
    time. *)
Theorem loadMessage_pages (db0 : Db) (K : string) (room : ChattingRoom) (u : Z)
    (time sender : nat → Z) (text : nat → string) (kind : nat → option string) :
  List.find (λ r, bool_decide (r_roomKey r = K)) (rooms db0) = Some room →
  let page limit offset :=
    Chatting.loadMessage u (Chatting.mkLoadMessageQuery K limit offset) in
  let send i :=
    Chatting.sendMessage (time i) (sender i)
      (Chatting.mkSendMessageBody (text i) K (kind i)) in
  page None None db0 = page (Some 30%nat) (Some 0%nat) db0
  ∧ (∀ limit offset, ∃ ms,
       page limit offset db0 = (Ok ms, db0) ∧ StronglySorted recent_first ms)
  ∧ (∀ n k : nat, ∃ p1 p2,
       page (Some n) (Some k) db0 = (Ok p1, db0)
       ∧ page (Some n) (Some (k + n)%nat) db0 = (Ok p2, db0)
       ∧ page (Some (n + n)%nat) (Some k) db0 = (Ok (p1 ++ p2), db0))
  ∧ ((∀ m, m ∈ messages db0 → m_roomId m ≠ r_roomId room) →
     time 1%nat < time 2%nat ∧ time 2%nat < time 3%nat
     ∧ time 3%nat < time 4%nat ∧ time 4%nat < time 5%nat →
     ∃ m1 m2 m3 m4 m5 db1 db2 db3 db4 db5,
       send 1%nat db0 = (Ok m1, db1) ∧ send 2%nat db1 = (Ok m2, db2)
       ∧ send 3%nat db2 = (Ok m3, db3) ∧ send 4%nat db3 = (Ok m4, db4)
       ∧ send 5%nat db4 = (Ok m5, db5)
       ∧ page (Some 2%nat) (Some 0%nat) db5 = (Ok [m5; m4], db5)
       ∧ page (Some 2%nat) (Some 2%nat) db5 = (Ok [m3; m2], db5)
       ∧ m_createdAt m2 < m_createdAt m3 ∧ m_createdAt m3 < m_createdAt m4
       ∧ m_createdAt m4 < m_createdAt m5
       ∧ NoDup [m5; m4; m3; m2]).
Proof.
  intros Hroom page send. subst page send. cbv beta. split_and!.
  - done.
  - intros limit offset. rewrite (loadMessage_found _ _ _ room) by done.
    eexists. split; [done|]. apply page_recent_first.
  - intros n k. rewrite !(loadMessage_found _ _ _ room) by done.
    eexists _, _. split_and!; [done..|]. simpl.
    by rewrite <-take_take_drop, drop_drop.
  - intros Hold (H12 & H23 & H34 & H45).
    set (rid := r_roomId room) in *.
    set (m1 := mkMessage (next_id m_messageId (messages db0)) rid (sender 1%nat)
                 (text 1%nat) (default "text"%string (kind 1%nat)) (time 1%nat)).
    set (db1 := set_messages (messages db0 ++ [m1]) db0).
    set (m2 := mkMessage (next_id m_messageId (messages db1)) rid (sender 2%nat)
                 (text 2%nat) (default "text"%string (kind 2%nat)) (time 2%nat)).
    set (db2 := set_messages (messages db1 ++ [m2]) db1).
    set (m3 := mkMessage (next_id m_messageId (messages db2)) rid (sender 3%nat)
                 (text 3%nat) (default "text"%string (kind 3%nat)) (time 3%nat)).
    set (db3 := set_messages (messages db2 ++ [m3]) db2).
    set (m4 := mkMessage (next_id m_messageId (messages db3)) rid (sender 4%nat)
                 (text 4%nat) (default "text"%string (kind 4%nat)) (time 4%nat)).
    set (db4 := set_messages (messages db3 ++ [m4]) db3).
    set (m5 := mkMessage (next_id m_messageId (messages db4)) rid (sender 5%nat)
                 (text 5%nat) (default "text"%string (kind 5%nat)) (time 5%nat)).
    set (db5 := set_messages (messages db4 ++ [m5]) db4).
    exists m1, m2, m3, m4, m5, db1, db2, db3, db4, db5.
    assert (ChattingService.feed rid db5 = [m5; m4; m3; m2; m1]) as Hfeed.
    { apply (feed_after_sends rid db5 (messages db0) [m1; m2; m3; m4; m5]).
      - simpl. by rewrite <-!app_assoc.
      - done.
      - by repeat constructor.
      - repeat (constructor; [|repeat constructor; unfold older_first; simpl; lia]).
        constructor. }
    split_and!.
    + by rewrite (sendMessage_found _ _ _ _ room).
    + by rewrite (sendMessage_found _ _ _ _ room).
    + by rewrite (sendMessage_found _ _ _ _ room).
    + by rewrite (sendMessage_found _ _ _ _ room).
    + by rewrite (sendMessage_found _ _ _ _ room).
    + rewrite (loadMessage_found _ _ _ room) by done. fold rid. by rewrite Hfeed.
    + rewrite (loadMessage_found _ _ _ room) by done. fold rid. by rewrite Hfeed.
    + simpl. lia.
    + simpl. lia.
    + simpl. lia.
    + assert (∀ a b : ChattingMessage, m_createdAt a ≠ m_createdAt b → a ≠ b)
        as Hne by (intros a b Hab ->; done).
      repeat (constructor; [rewrite ?elem_of_cons, elem_of_nil;
        intros Hin; repeat destruct Hin as [Hin|Hin]; try done;
        (revert Hin; apply Hne; simpl; lia)|]).
      constructor.
Qed.

(** Five messages sent to the room "1-2" at the instants 1 to 5. *)
Lemma loadMessage_pages_witness :
  ∃ m1 m2 m3 m4 m5 db5,
    messages db5 = [m1; m2; m3; m4; m5]
    ∧ Chatting.loadMessage 1 (Chatting.mkLoadMessageQuery "1-2" (Some 2%nat) (Some 0%nat)) db5
      = (Ok [m5; m4], db5)
    ∧ Chatting.loadMessage 1 (Chatting.mkLoadMessageQuery "1-2" (Some 2%nat) (Some 2%nat)) db5
      = (Ok [m3; m2], db5).
Proof.
  destruct (proj2 (proj2 (proj2
    (loadMessage_pages one_room "1-2" (mkRoom 1 "1-2" [1; 2]) 1
       Z.of_nat (λ i, if Nat.even i then 2 else 1) (λ _, "hello"%string)
       (λ _, None) eq_refl)))) as (m1 & m2 & m3 & m4 & m5 & db1 & db2 & db3
       & db4 & db5 & H1 & H2 & H3 & H4 & H5 & Hp1 & Hp2 & _).
  - intros m Hm. by apply elem_of_nil in Hm.
  - simpl. lia.
  - exists m1, m2, m3, m4, m5, db5. split; [|by split].
    vm_compute in H1. injection H1 as <- <-.
    vm_compute in H2. injection H2 as <- <-.
    vm_compute in H3. injection H3 as <- <-.
    vm_compute in H4. injection H4 as <- <-.
    vm_compute in H5. injection H5 as <- <-.
    reflexivity.
Defined.

End Messages.

(** * Further properties of the handlers *)

(** ** Participants and room keys *)

Section MoreRoomKey.

Lemma participants_cases (u : Z) (ids : list Z) :
  ((u ∈ ids) ∧ Chatting.participants u ids = JS.sort ids)
  ∨ ((u ∉ ids) ∧ Chatting.participants u ids = JS.sort ids ++ [u]).
Proof.
  destruct (decide (u ∈ ids)) as [Hu|Hu]; [left|right]; split; try done.
  - by apply participants_present.
  - by apply participants_absent.
Qed.

(** X1: the participants [joinRoom] works with are the identifiers of the
    body and the caller, no more and no fewer: the caller is among them,
    every other identifier occurs as often as in the body, the caller once
    if the body does not name it and as often as the body names it
    otherwise. *)
Theorem participants_conserve (u : Z) (ids : list Z) :
  u ∈ Chatting.participants u ids
  ∧ (∀ x, x ≠ u →
       count_occ Z.eq_dec (Chatting.participants u ids) x = count_occ Z.eq_dec ids x)
  ∧ count_occ Z.eq_dec (Chatting.participants u ids) u
    = Nat.max 1 (count_occ Z.eq_dec ids u)
  ∧ (length ids ≤ length (Chatting.participants u ids) ≤ length ids + 1)%nat.
Proof.
  split; [apply participants_requester|].
  destruct (participants_cases u ids) as [[Hu ->]|[Hu ->]].
  - pose proof (sort_Permutation ids) as Hp.
    split_and!.
    + intros x _. by apply Permutation_count_occ.
    + rewrite (proj1 (Permutation_count_occ Z.eq_dec _ _) Hp).
      apply list_elem_of_In, (count_occ_In Z.eq_dec) in Hu. lia.
    + by rewrite Hp.
    + rewrite Hp. lia.
  - pose proof (sort_Permutation ids) as Hp.
    split_and!.
    + intros x Hx. rewrite count_occ_app. simpl.
      destruct (Z.eq_dec u x) as [->|_]; [done|].
      rewrite (proj1 (Permutation_count_occ Z.eq_dec _ _) Hp). lia.
    + rewrite count_occ_app. simpl. destruct (Z.eq_dec u u) as [_|]; [|done].
      rewrite (proj1 (Permutation_count_occ Z.eq_dec _ _) Hp).
      assert (count_occ Z.eq_dec ids u = 0%nat) as ->; [|done].
      apply count_occ_not_In. by rewrite <-list_elem_of_In.
    + rewrite length_app, Hp. simpl. lia.
    + rewrite length_app, Hp. simpl. lia.
Qed.

(** X2: of the bodies the check in front of [joinRoom] lets through, the
    size check turns away exactly the list that holds the caller alone; it
    is answered with CHATTING.INVALID_MEMBER on any store, and every other
    body goes on to the lookup. *)
Theorem joinRoom_size_check (u : Z) (ids : list Z) :
  ChattingChain.userIds_custom ids = true →
  ((length (Chatting.participants u ids) < 2)%nat ↔ ids = [u])
  ∧ (ids = [u] →
     ∀ db, Chatting.joinRoom u ids db = (Throw CHATTING_INVALID_MEMBER, db))
  ∧ (ids ≠ [u] →
     ∀ db, Chatting.joinRoom u ids db
           = Chatting.lookupOrCreate u (Chatting.participants u ids) db).
Proof.
  intros Hvalid.
  assert (ids ≠ []) as Hne by (by intros ->).
  assert ((length (Chatting.participants u ids) < 2)%nat ↔ ids = [u]) as Hiff.
  { pose proof (sort_Permutation ids) as Hp.
    destruct (participants_cases u ids) as [[Hu ->]|[Hu ->]].
    - rewrite Hp. split.
      + intros Hlt. destruct ids as [|a [|b l]]; simpl in Hlt; [done| |lia].
        by apply list_elem_of_singleton in Hu as ->.
      + intros ->; simpl; lia.
    - rewrite length_app, Hp. simpl. split.
      + intros Hlt. destruct ids; [done|simpl in Hlt; lia].
      + intros ->. destruct Hu. by left. }
  split_and!; [done|..].
  - intros H db. by apply joinRoom_single_member, Hiff.
  - intros H db. apply joinRoom_enough_members.
    destruct (decide (length (Chatting.participants u ids) < 2)%nat) as [Hlt|]; [|lia].
    by apply Hiff in Hlt.
Qed.

(** Caller 4 asking for a room with nobody but 4. *)
Lemma joinRoom_size_check_witness :
  Chatting.joinRoom 4 [4] three_users = (Throw CHATTING_INVALID_MEMBER, three_users).
Proof.
  exact (proj1 (proj2 (joinRoom_size_check 4 [4] eq_refl)) eq_refl three_users).
Defined.

(** X3: two requests derive the same room key exactly when they derive the
    same list of participants: no two participant lists share a key,
    negative identifiers included. *)
Theorem roomKey_injective (u u' : Z) (ids ids' : list Z) :
  Chatting.roomKey u ids = Chatting.roomKey u' ids'
  ↔ Chatting.participants u ids = Chatting.participants u' ids'.
Proof.
  unfold Chatting.roomKey. split; [apply join_inj|by intros ->].
Qed.

(** A numeral without sign runs up to the next separator. *)
Lemma split_string_of_uint (d : Decimal.uint) (t piece : string)
    (pieces : list string) :
  JSString.split "-" t = piece :: pieces →
  JSString.split "-" (NilEmpty.string_of_uint d ++ t)
  = (NilEmpty.string_of_uint d ++ piece)%string :: pieces.
Proof.
  intros Ht.
  induction d; cbn [NilEmpty.string_of_uint]; [done|..];
    (change (String ?a ?s ++ t)%string with (String a (s ++ t));
     cbn [JSString.split Ascii.eqb Bool.eqb]; by rewrite IHd).
Qed.

Lemma split_toString (n : Z) (t piece : string) (pieces : list string) :
  0 ≤ n →
  JSString.split "-" t = piece :: pieces →
  JSString.split "-" (JS.toString n ++ t)
  = (JS.toString n ++ piece)%string :: pieces.
Proof.
  intros Hn Ht. unfold JS.toString.
  destruct n as [|p|p]; [| |lia]; simpl.
  - by apply (split_string_of_uint (Decimal.D0 Decimal.Nil)).
  - pose proof (Unsigned.to_uint_nonnil p) as Hnil.
    unfold NilZero.string_of_uint.
    destruct (Pos.to_uint p) eqn:Hd; [done|..]; rewrite <-Hd;
      by apply split_string_of_uint.
Qed.

Lemma split_join (l : list Z) :
  l ≠ [] → Forall (λ x, 0 ≤ x) l →
  JSString.split "-" (JS.join "-" l) = map JS.toString l.
Proof.
  intros Hne Hl. induction Hl as [|x l Hx Hl IH]; [done|]. clear Hne.
  destruct l as [|y l].
  - unfold JS.join. simpl. rewrite <-(string_app_nil_r (JS.toString x)) at 1.
    rewrite (split_toString x "" "" []) by done. by rewrite string_app_nil_r.
  - change (JS.join "-" (x :: y :: l))
      with (JS.toString x ++ String "-" (JS.join "-" (y :: l)))%string.
    rewrite (split_toString x _ "" (map JS.toString (y :: l))); [|done|].
    + by rewrite string_app_nil_r.
    + cbn [JSString.split Ascii.eqb Bool.eqb]. by rewrite IH.
Qed.

Lemma numerals_toString (l : list Z) :
  ChattingLookup.numerals (map JS.toString l) = l.
Proof.
  unfold ChattingLookup.numerals. induction l as [|x l IH]; [done|].
  cbn [map omap list_omap]. by rewrite toNumber_toString, IH.
Qed.

Lemma participants_nonneg (u : Z) (ids : list Z) :
  0 ≤ u → Forall (λ x, 0 ≤ x) ids →
  Forall (λ x, 0 ≤ x) (Chatting.participants u ids).
Proof.
  intros Hu Hids.
  destruct (participants_cases u ids) as [[_ ->]|[_ ->]];
    rewrite ?Forall_app, sort_Permutation; [done|]. split; [done|]. by constructor.
Qed.

Lemma split_roomKey (u : Z) (ids : list Z) :
  0 ≤ u → Forall (λ x, 0 ≤ x) ids →
  JSString.split "-" (Chatting.roomKey u ids)
  = map JS.toString (Chatting.participants u ids).
Proof.
  intros Hu Hids. apply split_join; [|by apply participants_nonneg].
  intros Hnil. pose proof (participants_requester u ids) as Hin.
  rewrite Hnil in Hin. by apply elem_of_nil in Hin.
Qed.

(** X4: for identifiers that are not negative, [roomKey.split('-')] as
    [room] computes it gives back the numerals of the participants of
    [joinRoom], in their order, and so the participants themselves. *)
Theorem roomKey_split (u : Z) (ids : list Z) :
  0 ≤ u → Forall (λ x, 0 ≤ x) ids →
  JSString.split "-" (Chatting.roomKey u ids)
    = map JS.toString (Chatting.participants u ids)
  ∧ ChattingLookup.numerals (JSString.split "-" (Chatting.roomKey u ids))
    = Chatting.participants u ids.
Proof.
  intros Hu Hids. pose proof (split_roomKey u ids Hu Hids) as Hs.
  split; [done|]. by rewrite Hs, numerals_toString.
Qed.

(** Caller 2 with 10, 9 and 2. *)
Lemma roomKey_split_witness :
  JSString.split "-" (Chatting.roomKey 2 [10; 9; 2])
  = ["10"; "2"; "9"]%string.
Proof.
  refine (proj1 (roomKey_split 2 [10; 9; 2] _ _)).
  - lia.
  - repeat constructor; lia.
Defined.

End MoreRoomKey.

(** ** Rooms and messages *)

Section MoreChat.

(** X5: after a successful [joinRoom] with identifiers that are not
    negative, [room] called by the same user with the key of the answered
    room answers that room and the same users, and changes nothing. *)
Theorem room_after_joinRoom (u : Z) (ids : list Z) (db db1 : Db)
    (room : ChattingRoom) (us : list (Z * User)) :
  0 ≤ u → Forall (λ x, 0 ≤ x) ids →
  Chatting.joinRoom u ids db = (Ok (room, us), db1) →
  ChattingLookup.room u (r_roomKey room) db1 = (Ok (Some room, us), db1).
Proof.
  intros Hu Hids Hjoin.
  destruct (joinRoom_again u u ids ids db db1 room us eq_refl Hjoin)
    as (Hsecond & _ & Hfind).
  pose proof (find_Some_key _ _ _ Hfind) as [_ Hkey].
  destruct (joinRoom_paths u ids db1)
    as [[Hr _]|[(r & Hf & _ & Hr)|(Hf & _)]];
    [rewrite Hr in Hsecond; done| |unfold Chatting.roomKey in Hfind; congruence].
  rewrite Hr in Hsecond. injection Hsecond as -> Hus.
  unfold ChattingLookup.room, bind, ChattingService.getRoomByRoomKey,
    UserService.getUserByIds, query, ret.
  rewrite Hkey, Hfind. rewrite (split_roomKey u ids Hu Hids), numerals_toString.
  by rewrite Hus.
Qed.

(** The room of 1, 3 and caller 2, created and then looked up. *)
Lemma room_after_joinRoom_witness :
  ∃ room us db1,
    Chatting.joinRoom 2 [1; 3] three_users = (Ok (room, us), db1)
    ∧ ChattingLookup.room 2 (r_roomKey room) db1 = (Ok (Some room, us), db1).
Proof.
  eexists _, _, _. split; [vm_compute; reflexivity|].
  apply (room_after_joinRoom 2 [1; 3] three_users).
  - lia.
  - repeat constructor; lia.
  - vm_compute. reflexivity.
Defined.

(** X6: [loadMessage] and [sendMessage] throw CHATTING.INVALID_ROOMKEY, with
    the store untouched, exactly when no room is stored under the key they
    are given; [loadMessage] never changes the store. *)
Theorem roomKey_lookup_outcomes (u : Z) (db : Db) :
  (∀ q, Chatting.loadMessage u q db = (Throw CHATTING_INVALID_ROOMKEY, db)
        ↔ List.find (λ r, bool_decide (r_roomKey r = Chatting.lm_roomKey q))
                    (rooms db) = None)
  ∧ (∀ now body,
       Chatting.sendMessage now u body db = (Throw CHATTING_INVALID_ROOMKEY, db)
       ↔ List.find (λ r, bool_decide (r_roomKey r = Chatting.sm_roomKey body))
                   (rooms db) = None)
  ∧ (∀ q, (Chatting.loadMessage u q db).2 = db).
Proof.
  split_and!.
  - intros q. split.
    + intros Hthrow.
      destruct (List.find _ _) as [room|] eqn:Hf; [|done].
      by rewrite (loadMessage_found _ _ _ room) in Hthrow.
    + apply loadMessage_unknown.
  - intros now body. split.
    + intros Hthrow.
      destruct (List.find _ _) as [room|] eqn:Hf; [|done].
      by rewrite (sendMessage_found _ _ _ _ room) in Hthrow.
    + intros Hf. by lookup_room Hf.
  - intros q.
    destruct (List.find (λ r, bool_decide (r_roomKey r = Chatting.lm_roomKey q))
                        (rooms db)) as [room|] eqn:Hf.
    + by rewrite (loadMessage_found _ _ _ room).
    + by rewrite loadMessage_unknown.
Qed.

(** X8: [joinRoom] leaves every table but the room table as it is; the room
    table stays as it is or gets one new last row, the answered room, with
    the participants as members and the derived key; and the only error
    [joinRoom] raises is CHATTING.INVALID_MEMBER, with the store
    unchanged. *)
Theorem joinRoom_frame (u : Z) (ids : list Z) (db : Db) :
  let db' := (Chatting.joinRoom u ids db).2 in
  users db' = users db ∧ messages db' = messages db
  ∧ shopperOrders db' = shopperOrders db
  ∧ shopperOrderRequests db' = shopperOrderRequests db
  ∧ runnerOrders db' = runnerOrders db
  ∧ runnerOrderRequests db' = runnerOrderRequests db
  ∧ (rooms db' = rooms db
     ∨ ∃ new, rooms db' = rooms db ++ [new]
              ∧ (Chatting.joinRoom u ids db).1
                = Ok (new, map_to_list (UserService.matched (r_members new) db))
              ∧ r_members new = Chatting.participants u ids
              ∧ r_roomKey new = Chatting.roomKey u ids)
  ∧ (∀ e, (Chatting.joinRoom u ids db).1 = Throw e →
          e = CHATTING_INVALID_MEMBER ∧ db' = db).
Proof.
  intros db'. subst db'.
  destruct (joinRoom_paths u ids db)
    as [[-> _]|[(room & _ & _ & ->)|(_ & _ & _ & ->)]]; simpl.
  - split_and!; try done; [by left|]. by intros e [= <-].
  - split_and!; try done. by left.
  - split_and!; try done. right. by eexists.
Qed.

Lemma matched_all_iff (P : list Z) (db : Db) :
  size (UserService.matched P db) = length P
  ↔ NoDup P
    ∧ Forall (λ x, ∃ usr, users db !! x = Some usr ∧ u_active usr = true) P.
Proof.
  split; [apply matched_all|]. intros [Hnd Hall].
  rewrite <-(size_list_to_set (C:=gset Z) P Hnd), <-size_dom. f_equal.
  apply set_eq. intros x. rewrite elem_of_dom, elem_of_list_to_set. split.
  - intros [usr Hx]. by apply matched_lookup in Hx as (_ & Hx & _).
  - intros Hx. destruct (proj1 (Forall_forall _ _) Hall x Hx) as (usr & Hu & Hact).
    exists usr. by apply matched_lookup.
Qed.

(** X9: when no room is stored under the derived key, [joinRoom] succeeds
    exactly when there are at least two participants, no participant is
    listed twice, and every participant is an active user. *)
Theorem joinRoom_creates_iff (u : Z) (ids : list Z) (db : Db) :
  List.find (λ r, bool_decide (r_roomKey r = Chatting.roomKey u ids)) (rooms db)
    = None →
  (∃ res, (Chatting.joinRoom u ids db).1 = Ok res)
  ↔ (2 ≤ length (Chatting.participants u ids))%nat
    ∧ NoDup (Chatting.participants u ids)
    ∧ Forall (λ x, ∃ usr, users db !! x = Some usr ∧ u_active usr = true)
             (Chatting.participants u ids).
Proof.
  intros Hnone. unfold Chatting.roomKey in Hnone.
  destruct (joinRoom_paths u ids db)
    as [[-> [Hlt|[_ Hne]]]|[(room & Hf & _)|(_ & Hlen & Hm & ->)]]; simpl.
  - split; [by intros [res ?]|]. intros (Hlen & _). lia.
  - split; [by intros [res ?]|]. intros (_ & Hnd & Hall).
    destruct Hne. by apply matched_all_iff.
  - congruence.
  - split; [|by eexists]. intros _. split; [done|]. by apply matched_all_iff.
Qed.

(** Users 1, 2 and 3 exist: the room for 1, 3 and caller 2 is made. *)
Lemma joinRoom_creates_iff_witness :
  ∃ res, (Chatting.joinRoom 2 [1; 3] three_users).1 = Ok res.
Proof.
  refine (proj2 (joinRoom_creates_iff 2 [1; 3] three_users _) _).
  - vm_compute. reflexivity.
  - split; [vm_compute; lia|]. split.
    + vm_compute. repeat constructor; rewrite ?elem_of_cons, ?elem_of_nil; intros H;
        repeat (destruct H as [H|H]; try discriminate H); done.
    + vm_compute. repeat constructor; eexists; (split; [reflexivity|reflexivity]).
Defined.

Lemma next_id_above {A} (id : A → Z) (rows : list A) (a : A) :
  a ∈ rows → id a < next_id id rows.
Proof.
  unfold next_id. induction rows as [|b l IH]; [by intros ?%elem_of_nil|].
  simpl. intros [->|Ha]%elem_of_cons; [lia|]. apply IH in Ha. lia.
Qed.

Lemma NoDup_map_inj {A} (id : A → Z) (rows : list A) (a b : A) :
  NoDup (map id rows) → a ∈ rows → b ∈ rows → id a = id b → a = b.
Proof.
  induction rows as [|c l IH]; [by intros _ ?%elem_of_nil|].
  simpl. intros [Hc Hnd]%NoDup_cons [->|Ha]%elem_of_cons [->|Hb]%elem_of_cons Heq;
    [done|..].
  - destruct Hc. rewrite Heq. apply list_elem_of_fmap. by exists b.
  - destruct Hc. rewrite <-Heq. apply list_elem_of_fmap. by exists a.
  - by apply IH.
Qed.

(** X7: [sendMessage] to a stored room, at an instant later than every
    message of that room and with message identifiers distinct, stores one
    message by the caller with the given text in that room; the message
    heads the feed of the room, the rest of the feed is as before, and the
    feed of every other room is unchanged. *)
Theorem sendMessage_feed (now u : Z) (body : Chatting.SendMessageBody)
    (db : Db) (room : ChattingRoom) :
  List.find (λ r, bool_decide (r_roomKey r = Chatting.sm_roomKey body)) (rooms db)
    = Some room →
  NoDup (map m_messageId (messages db)) →
  (∀ m, m ∈ messages db → m_roomId m = r_roomId room → m_createdAt m < now) →
  ∃ row db',
    Chatting.sendMessage now u body db = (Ok row, db')
    ∧ m_userId row = u ∧ m_message row = Chatting.sm_message body
    ∧ m_roomId row = r_roomId room ∧ m_createdAt row = now
    ∧ messages db' = messages db ++ [row]
    ∧ NoDup (map m_messageId (messages db'))
    ∧ ChattingService.feed (r_roomId room) db'
      = row :: ChattingService.feed (r_roomId room) db
    ∧ (∀ rid, rid ≠ r_roomId room →
         ChattingService.feed rid db' = ChattingService.feed rid db).
Proof.
  intros Hf Hnd Hlater.
  rewrite (sendMessage_found _ _ _ _ room Hf). cbv zeta.
  set (row := mkMessage _ _ _ _ _ _). eexists row, _. split; [done|].
  assert (∀ m, m ∈ messages db → m_messageId m ≠ m_messageId row) as Hfresh.
  { intros m Hm. apply (next_id_above m_messageId) in Hm. simpl. lia. }
  split_and!; try done.
  - simpl. rewrite map_app. apply NoDup_app. split_and!; [done| |by apply NoDup_singleton].
    intros i [m [Hi Hm]]%list_elem_of_fmap [Hrow|[]%elem_of_nil]%elem_of_cons.
    apply (Hfresh m Hm). congruence.
  - unfold ChattingService.feed. simpl.
    rewrite List.filter_app. cbn [List.filter m_roomId row].
    rewrite bool_decide_eq_true_2 by done.
    set (old := List.filter _ (messages db)).
    assert (∀ m, m ∈ old → m ∈ messages db ∧ m_createdAt m < now) as Hold.
    { intros m Hm%list_elem_of_In%filter_In. destruct Hm as [Hm Hr].
      apply list_elem_of_In in Hm. apply bool_decide_eq_true in Hr. auto. }
    apply (StronglySorted_unique_strong ChattingService.newer).
    + intros a b Ha Hb Hab Hba.
      rewrite merge_sort_Permutation in Ha.
      assert (b ∈ old ++ [row]) as Hb'.
      { apply elem_of_cons in Hb as [->|Hb].
        - apply elem_of_app. right. by left.
        - rewrite merge_sort_Permutation in Hb. apply elem_of_app. by left. }
      clear Hb. unfold ChattingService.newer in Hab, Hba.
      apply elem_of_app in Ha as [Ha|Ha]; apply elem_of_app in Hb' as [Hb|Hb];
        try (apply list_elem_of_singleton in Ha as ->);
        try (apply list_elem_of_singleton in Hb as ->); [| | |done].
      * apply Hold in Ha as [Ha _]. apply Hold in Hb as [Hb _].
        apply (NoDup_map_inj m_messageId (messages db)); [done..|lia].
      * apply Hold in Ha as [_ Ha]. simpl in *. lia.
      * apply Hold in Hb as [_ Hb]. simpl in *. lia.
    + apply (StronglySorted_merge_sort _).
    + constructor; [apply (StronglySorted_merge_sort _)|].
      apply Forall_forall. intros m Hm. rewrite merge_sort_Permutation in Hm.
      apply Hold in Hm as [_ Hm]. left. simpl. lia.
    + rewrite !merge_sort_Permutation. by rewrite Permutation_app_comm.
  - intros rid Hrid. unfold ChattingService.feed. simpl.
    rewrite List.filter_app. cbn [List.filter m_roomId row].
    rewrite bool_decide_eq_false_2 by done. by rewrite app_nil_r.
Qed.

(** The first message of the room "1-2". *)
Lemma sendMessage_feed_witness :
  ∃ row db',
    Chatting.sendMessage 5 1 (Chatting.mkSendMessageBody "hi" "1-2" None) one_room
    = (Ok row, db')
    ∧ ChattingService.feed 1 db' = [row].
Proof.
  destruct (sendMessage_feed 5 1 (Chatting.mkSendMessageBody "hi" "1-2" None)
              one_room (mkRoom 1 "1-2" [1; 2]))
    as (row & db' & Hsend & _ & _ & _ & _ & _ & _ & Hfeed & _).
  - reflexivity.
  - constructor.
  - intros m Hm. by apply elem_of_nil in Hm.
  - exists row, db'. split; [exact Hsend|exact Hfeed].
Defined.

End MoreChat.

(** ** Objects handed to the services *)

Section Objects.

(** [Object.assign] with two sources, key by key: the second source, else
    the first, else the target. *)
Lemma lookup_assign2 (target first second : JSObject.object) (k : string) :
  JSObject.assign target [first; second] !! k
  = match second !! k with
    | Some v => Some v
    | None => match first !! k with
              | Some v => Some v
              | None => target !! k
              end
    end.
Proof.
  unfold JSObject.assign. simpl. rewrite !lookup_union.
  by destruct (second !! k), (first !! k), (target !! k).
Qed.

Lemma lookup_assign1 (target source : JSObject.object) (k : string) :
  JSObject.assign target [source] !! k
  = match source !! k with
    | Some v => Some v
    | None => target !! k
    end.
Proof.
  unfold JSObject.assign. simpl. rewrite lookup_union.
  by destruct (source !! k), (target !! k).
Qed.

(** X10: the object [createOrder] hands to its service names as owner the
    [shopperId] ([runnerId] for runner orders) of the path parameters if
    there is one, else that of the body if there is one, and the caller
    only when neither names one; every other property is that of the
    parameters, else of the body.  The runner-side [createOrderRequest]
    treats [shopperId] the same way. *)
Theorem createOrder_owner {R} (service : JSObject.object → Async R)
    (userId : Z) (body params : JSObject.object) (db : Db) :
  (∃ order,
     ShopperObjects.createOrder service userId body params db = service order db
     ∧ order !! "shopperId"%string
       = Some (default (default (JS.Num userId) (body !! "shopperId"%string))
                       (params !! "shopperId"%string))
     ∧ ∀ k, k ≠ "shopperId"%string → order !! k = (params ∪ body) !! k)
  ∧ (∃ order,
     RunnerObjects.createOrder service userId body params db = service order db
     ∧ order !! "runnerId"%string
       = Some (default (default (JS.Num userId) (body !! "runnerId"%string))
                       (params !! "runnerId"%string))
     ∧ ∀ k, k ≠ "runnerId"%string → order !! k = (params ∪ body) !! k)
  ∧ (∃ shopperOrder,
     RunnerObjects.createOrderRequest service userId body params db
     = service shopperOrder db
     ∧ shopperOrder !! "shopperId"%string
       = Some (default (default (JS.Num userId) (body !! "shopperId"%string))
                       (params !! "shopperId"%string))
     ∧ ∀ k, k ≠ "shopperId"%string → shopperOrder !! k = (params ∪ body) !! k).
Proof.
  split_and!; (eexists; split; [reflexivity|]; split;
    [rewrite lookup_assign2, lookup_singleton_eq;
     by destruct (params !! _), (body !! _)
    |intros k Hk; rewrite lookup_assign2, lookup_union, lookup_singleton_ne by done;
     by destruct (params !! k), (body !! k)]).
Qed.

(** X11: the object [updateOrderRequest] and [deleteOrderRequest] hand to
    their service has every path parameter with the value of the path,
    whatever the body says, and every other property of the body as the
    body has it. *)
Theorem request_params_win {R} (service : JSObject.object → Async R)
    (body params : JSObject.object) (db : Db) :
  ∃ request,
    ShopperObjects.updateOrderRequest service body params db = service request db
    ∧ ShopperObjects.deleteOrderRequest service body params db = service request db
    ∧ RunnerObjects.updateOrderRequest service body params db = service request db
    ∧ RunnerObjects.deleteOrderRequest service body params db = service request db
    ∧ (∀ k v, params !! k = Some v → request !! k = Some v)
    ∧ (∀ k, params !! k = None → request !! k = body !! k).
Proof.
  eexists. split_and!; try reflexivity.
  - intros k v Hk. by rewrite lookup_assign1, Hk.
  - intros k Hk. by rewrite lookup_assign1, Hk.
Qed.

(** X12: [updateUser] hands its service the body with [userId] set to the
    caller, whatever [userId] the body carries, and every other property
    of the body unchanged; it then reads the caller's row. *)
Theorem updateUser_own_row {R} (service_updateUser : JSObject.object → Async unit)
    (service_getUserById : Z → Async R) (userId : Z) (body : JSObject.object)
    (db : Db) :
  ∃ user,
    UserObjects.updateUser service_updateUser service_getUserById userId body db
    = bind (service_updateUser user) (λ _, service_getUserById userId) db
    ∧ user !! "userId"%string = Some (JS.Num userId)
    ∧ ∀ k, k ≠ "userId"%string → user !! k = body !! k.
Proof.
  exists (<[ "userId"%string := JS.Num userId ]> body). split_and!.
  - unfold UserObjects.updateUser, bind, ret.
    destruct (service_updateUser _ db) as [[[]|e] db1]; [|done].
    by destruct (service_getUserById userId db1) as [[r|e] db2].
  - apply lookup_insert_eq.
  - intros k Hk. by apply lookup_insert_ne.
Qed.

End Objects.

(** ** Uploaded files *)

Section UploadFacts.

Lemma replace_occurrences (c : ascii) (r p : string) :
  JSString.occurrences c (JSString.replace c r p)
  = (if decide (JSString.occurrences c p = 0)%nat then 0
     else JSString.occurrences c r + (JSString.occurrences c p - 1))%nat.
Proof.
  induction p as [|a p IH]; [done|]. cbn [JSString.replace JSString.occurrences].
  destruct (Ascii.eqb a c) eqn:Hac.
  - rewrite decide_False by lia.
    assert (∀ s t, JSString.occurrences c (s ++ t)
                   = (JSString.occurrences c s + JSString.occurrences c t)%nat) as Happ.
    { intros s t. induction s as [|b s IHs]; [done|].
      change (String b s ++ t)%string with (String b (s ++ t)).
      cbn [JSString.occurrences]. rewrite IHs. lia. }
    rewrite Happ. lia.
  - cbn [JSString.occurrences]. rewrite Hac, IH. simpl.
    destruct (decide (JSString.occurrences c p = 0%nat)); done.
Qed.

Lemma replace_backslash_slashes (p : string) :
  JSString.occurrences "/" (JSString.replace "\" "/" p)
  = (JSString.occurrences "/" p + Nat.min 1 (JSString.occurrences "\" p))%nat.
Proof.
  induction p as [|a p IH]; [done|].
  cbn [JSString.replace JSString.occurrences].
  destruct (Ascii.eqb a "\") eqn:Ha.
  - apply Ascii.eqb_eq in Ha as ->.
    change ("/" ++ p)%string with (String "/" p).
    cbn [JSString.occurrences Ascii.eqb Bool.eqb]. lia.
  - cbn [JSString.occurrences]. rewrite IH. lia.
Qed.

Lemma replace_backslash_length (p : string) :
  String.length (JSString.replace "\" "/" p) = String.length p.
Proof.
  induction p as [|a p IH]; [done|]. cbn [JSString.replace].
  destruct (Ascii.eqb a "\"); [done|]. cbn [String.length]. by rewrite IH.
Qed.

Lemma replace_backslash_none (p : string) :
  JSString.occurrences "\" p = 0%nat → JSString.replace "\" "/" p = p.
Proof.
  induction p as [|a p IH]; [done|].
  cbn [JSString.replace JSString.occurrences].
  destruct (Ascii.eqb a "\"); [simpl; lia|]. intros H0. f_equal. by apply IH.
Qed.

(** X14: the path rewrite of [upload] replaces the first backslash only: the
    rewritten text has one backslash fewer (none fewer when there is none),
    one slash more when there was a backslash, and the same length; it is
    free of backslashes exactly when the path had at most one. *)
Theorem replace_first_backslash (path : string) :
  let path' := JSString.replace "\" "/" path in
  JSString.occurrences "\" path' = (JSString.occurrences "\" path - 1)%nat
  ∧ JSString.occurrences "/" path'
    = (JSString.occurrences "/" path + Nat.min 1 (JSString.occurrences "\" path))%nat
  ∧ String.length path' = String.length path
  ∧ (JSString.occurrences "\" path = 0%nat → path' = path)
  ∧ (JSString.occurrences "\" path' = 0%nat
     ↔ (JSString.occurrences "\" path ≤ 1)%nat).
Proof.
  intros path'. subst path'.
  assert (JSString.occurrences "\" (JSString.replace "\" "/" path)
          = (JSString.occurrences "\" path - 1)%nat) as Hback.
  { rewrite replace_occurrences.
    destruct (decide (JSString.occurrences "\" path = 0%nat)); simpl; lia. }
  split_and!; [done|..|lia].
  - apply replace_backslash_slashes.
  - apply replace_backslash_length.
  - apply replace_backslash_none.
Qed.

Lemma publish_Some (file file' : JSObject.object) :
  Upload.publish file = Some file'
  ↔ ∃ path, file !! "path"%string = Some (JS.Str path)
      ∧ file' = delete "originalname"%string (delete "destination"%string
                  (delete "fieldname"%string
                     (<[ "path"%string
                         := JS.Str ("/" ++ JSString.replace "\" "/" path) ]> file))).
Proof.
  unfold Upload.publish. split.
  - destruct (file !! "path"%string) as [[path|n]|]; [|done..].
    intros [= <-]. by exists path.
  - intros (path & -> & ->). done.
Qed.

(** X13: [upload] answers exactly when every file has a string as its path;
    it then answers the type of the route and, for each file in order, the
    file with its path rewritten behind a leading slash, without
    [fieldname], [destination] and [originalname], and with every other
    property unchanged. *)
Theorem upload_files (type : string) (files : list JSObject.object) :
  (is_Some (Upload.upload type files)
   ↔ Forall (λ file, ∃ path, file !! "path"%string = Some (JS.Str path)) files)
  ∧ (∀ type' files', Upload.upload type files = Some (type', files') →
       type' = type
       ∧ Forall2 (λ file file',
            (∃ path, file !! "path"%string = Some (JS.Str path)
               ∧ file' !! "path"%string
                 = Some (JS.Str ("/" ++ JSString.replace "\" "/" path)))
            ∧ file' !! "fieldname"%string = None
            ∧ file' !! "destination"%string = None
            ∧ file' !! "originalname"%string = None
            ∧ ∀ k, k ∉ ["path"; "fieldname"; "destination"; "originalname"]%string →
                   file' !! k = file !! k) files files').
Proof.
  unfold Upload.upload. split.
  - assert (is_Some (mapM Upload.publish files)
            ↔ Forall (λ file, ∃ path, file !! "path"%string = Some (JS.Str path))
                     files) as <-.
    { rewrite mapM_is_Some. apply Forall_proper; [|done]. intros file. split.
      - intros [file' (path & Hp & _)%publish_Some]. by exists path.
      - intros [path Hp]. eexists. apply publish_Some. by exists path. }
    destruct (mapM Upload.publish files); simpl; split; intros [? ?]; by eauto.
  - intros type' files' H.
    destruct (mapM Upload.publish files) as [fs|] eqn:Hm; [|done].
    injection H as <- <-. split; [done|].
    apply mapM_Some in Hm. eapply Forall2_impl; [exact Hm|].
    intros file file' (path & Hp & ->)%publish_Some. split_and!.
    + exists path. split; [done|].
      rewrite 3!lookup_delete_ne by done. apply lookup_insert_eq.
    + rewrite 2!lookup_delete_ne by done. apply lookup_delete_eq.
    + rewrite lookup_delete_ne by done. apply lookup_delete_eq.
    + apply lookup_delete_eq.
    + intros k Hk. rewrite !not_elem_of_cons in Hk.
      destruct Hk as (? & ? & ? & ? & _).
      rewrite 3!lookup_delete_ne by done. by apply lookup_insert_ne.
Qed.

End UploadFacts.

(** ** Listings and the caller *)

Section MoreListing.

(** X15: unless the owner filter is exactly "me", the listing handlers
    [getOrders] and [getRequests] do not depend on who calls: the query
    reaches the service as it came. *)
Theorem listing_ignores_caller {R} (service : OrderService.Query → Async R)
    (u u' : Z) (q : OrderService.Query) (db : Db) :
  OrderService.ownerId q ≠ Some (JS.Str "me") →
  Shopper.getOrders u q db = Shopper.getOrders u' q db
  ∧ Runner.getOrders u q db = Runner.getOrders u' q db
  ∧ ShopperObjects.getRequests service u q db
    = ShopperObjects.getRequests service u' q db
  ∧ RunnerObjects.getRequests service u q db
    = RunnerObjects.getRequests service u' q db
  ∧ ShopperObjects.getRequests service u q db = service q db.
Proof.
  intros Hq.
  unfold Shopper.getOrders, Runner.getOrders, ShopperObjects.getRequests,
    RunnerObjects.getRequests.
  change (Runner.resolveOwner) with (Shopper.resolveOwner).
  by rewrite !(resolveOwner_other _ q Hq).
Qed.

(** "ME" is not the sentinel. *)
Lemma listing_ignores_caller_witness :
  Shopper.getOrders 10 (OrderService.mkQuery (Some (JS.Str "ME")) None None None)
                    one_order
  = Shopper.getOrders 20 (OrderService.mkQuery (Some (JS.Str "ME")) None None None)
                      one_order.
Proof.
  refine (proj1 (listing_ignores_caller (λ _, ret tt) 10 20
                   (OrderService.mkQuery (Some (JS.Str "ME")) None None None)
                   one_order _)).
  discriminate.
Defined.

End MoreListing.

(** ** Instances of earlier lemmas *)

Section Instances.

(** Caller 3 sorts after 1 and 2: the appended caller is in its place. *)
Lemma roomKey_absent_canonical_iff_witness :
  Chatting.roomKey 3 [2; 1] = Chatting.resolveRoomKey ([2; 1] ++ [3]).
Proof.
  refine (proj2 (roomKey_absent_canonical_iff 3 [2; 1] _) _).
  - apply (proj1 (bool_decide_eq_false _)). reflexivity.
  - repeat constructor.
Defined.

(** 3, 1 and 2 are single digits. *)
Lemma resolveRoomKey_single_digits_witness :
  Chatting.resolveRoomKey [3; 1; 2] = Spec.resolveRoomKey [3; 1; 2].
Proof.
  apply (resolveRoomKey_single_digits [3; 1; 2]).
  repeat constructor; lia.
Defined.

(** The store after the first room has been made. *)
Lemma reachable_rooms_wf_witness :
  rooms_wf (Chatting.joinRoom 2 [1; 3] three_users).2.
Proof.
  apply reachable_rooms_wf, reachable_joinRoom, reachable_start. reflexivity.
Defined.

End Instances.
